(** * A first-fit [sbrk] allocator: shallow embedding and verification

    The development embeds [memoryAllocator.c] (malloc, calloc, realloc and
    free over a singly linked list of block headers carved from the program
    break) and proves the properties stated in the specification.

    Modelling decisions, all visible in the definitions below:
    - [size_t] values and pointers are integers in [0, 2^size_bits); every
      [size_t] and pointer computation of the source is followed by [wrap];
      the conversion of a [size_t] to the [intptr_t] argument of [sbrk] is
      [to_signed].  The width of the size type, [sizeof(header_t)] and the
      policy of the operating system form a [Platform].
    - The null pointer is [0]; the failure value of [sbrk], [(void* )-1], is
      [wrap (-1)].
    - Header storage is a finite map from the address of a header to its three
      fields; payload bytes live in a separate byte store addressed by
      unbounded integers, which [memset] and [memcpy] update.  The split is
      exact as long as the destination of a fill or copy holds no header
      byte and ends inside the address space; so it is for the payload of
      every listed block of a well-formed directory, where header ranges and
      payload ranges are disjoint (lemma [wf_payload_header_disjoint]).  The
      fill of a block recorded with a wrapped size may in the program run
      over header bytes or past the end of the address space; the byte store
      does not show that, and no statement below is made about the state
      after such a fill.
    - Dereferencing an address that holds no header is [Undefined], and so is
      a division by zero; the two loops take fuel and answer [OutOfFuel] when
      it runs out.
    - The operating system side of [sbrk] is a policy [os_grant] that says
      whether a non-zero move of the break is satisfied; [sbrk 0] reports the
      break.  Moving the break leaves both stores as they are.
    - The mutex is modelled by the events [Lock] and [Unlock] appended to a
      trace, next to one [Sbrk] event per call of [sbrk]; a single thread of
      control is modelled. *)

From Stdlib Require Import ZArith List Lia Bool.
From stdpp Require Import base option list gmap.

Open Scope Z_scope.

(** ** Platform *)

Class Platform := {
  size_bits : Z;               (* width of size_t, intptr_t and of pointers *)
  header_size : Z;             (* sizeof(header_t) *)
  os_grant : Z -> Z -> bool    (* os_grant brk delta: the move is satisfied *)
}.

Definition modulus `{Platform} : Z := 2 ^ size_bits.
Definition half `{Platform} : Z := 2 ^ (size_bits - 1).
Definition wrap `{Platform} (z : Z) : Z := z mod modulus.
Definition to_signed `{Platform} (z : Z) : Z := if z <? half then z else z - modulus.
Definition NULL : Z := 0.
Definition SBRK_FAILED `{Platform} : Z := wrap (-1).

(** What the proofs ask of a platform: a size type of at least one bit, a
    header that is not empty and smaller than half the address space, and a
    break that only moves to valid addresses. *)
Record platform_ok `{Platform} : Prop := {
  bits_pos : 1 <= size_bits;
  header_size_pos : 0 < header_size;
  header_size_small : header_size < half;
  grant_in_range : forall b d, os_grant b d = true -> 0 <= b + d < modulus
}.

(** LP64: 8-byte [size_t], 4-byte [unsigned] padded to 8, 8-byte pointer; the
    16-byte [ALIGN] member of the union does not enlarge it.  The break may
    move anywhere between 0 and [limit]. *)
Definition lp64 (limit : Z) : Platform :=
  {| size_bits := 64; header_size := 24;
     os_grant := fun b d => (0 <=? b + d) && (b + d <=? limit) |}.

(** ** Results of partial computations *)

Inductive res (A : Type) : Type :=
| Ok (a : A)
| OutOfFuel
| Undefined.
Arguments Ok {A} a.
Arguments OutOfFuel {A}.
Arguments Undefined {A}.

#[global] Instance res_ret : MRet res := fun A a => Ok a.
#[global] Instance res_bind : MBind res := fun A B f m =>
  match m with
  | Ok a => f a
  | OutOfFuel => OutOfFuel
  | Undefined => Undefined
  end.

(** ** Data model *)

Record header := mkHeader {
  s_size : Z;
  s_is_free : bool;
  s_next : Z
}.

Inductive event :=
| Lock
| Unlock
| Sbrk (increment : Z).

Record state := mkState {
  head : Z;
  tail : Z;
  hdrs : gmap Z header;
  mem : Z -> Z;
  brk : Z;
  trace : list event
}.

Definition set_head (v : Z) (s : state) : state :=
  mkState v (tail s) (hdrs s) (mem s) (brk s) (trace s).
Definition set_tail (v : Z) (s : state) : state :=
  mkState (head s) v (hdrs s) (mem s) (brk s) (trace s).
Definition set_hdrs (v : gmap Z header) (s : state) : state :=
  mkState (head s) (tail s) v (mem s) (brk s) (trace s).
Definition set_mem (v : Z -> Z) (s : state) : state :=
  mkState (head s) (tail s) (hdrs s) v (brk s) (trace s).
Definition set_brk (v : Z) (s : state) : state :=
  mkState (head s) (tail s) (hdrs s) (mem s) v (trace s).
Definition log (e : event) (s : state) : state :=
  mkState (head s) (tail s) (hdrs s) (mem s) (brk s) (trace s ++ [e]).

(** [header_t *head = NULL, *tail = NULL] with the break at [b]. *)
Definition initial (b : Z) : state :=
  mkState NULL NULL ∅ (fun _ => 0) b [].

(** ** Memory accesses *)

Definition load (a : Z) (s : state) : res header :=
  match hdrs s !! a with
  | Some h => Ok h
  | None => Undefined
  end.

Definition store_is_free (a : Z) (v : bool) (s : state) : res state :=
  h ← load a s;
  Ok (set_hdrs (<[a := mkHeader (s_size h) v (s_next h)]> (hdrs s)) s).

Definition store_next (a : Z) (v : Z) (s : state) : res state :=
  h ← load a s;
  Ok (set_hdrs (<[a := mkHeader (s_size h) (s_is_free h) v]> (hdrs s)) s).

(** The three stores that initialise a fresh header, taken together. *)
Definition store_header (a : Z) (h : header) (s : state) : state :=
  set_hdrs (<[a := h]> (hdrs s)) s.

(** [memset] and [memcpy] on the payload byte store.  They describe the C
    functions for a destination range that holds no header byte and ends
    inside the address space; header fields are not bytes of this store. *)
Definition memset (p c n : Z) (s : state) : state :=
  set_mem (fun x => if (p <=? x) && (x <? p + n) then c else mem s x) s.

Definition memcpy (dst src n : Z) (s : state) : state :=
  set_mem (fun x => if (dst <=? x) && (x <? dst + n)
                    then mem s (src + (x - dst)) else mem s x) s.

(** Unsigned division; the C operation is undefined on a zero divisor. *)
Definition udiv (a b : Z) : res Z :=
  if b =? 0 then Undefined else Ok (a / b).

(** ** The Break Interface and the lock *)

Definition sbrk `{Platform} (increment : Z) (s : state) : Z * state :=
  let s1 := log (Sbrk increment) s in
  if increment =? 0 then (brk s, s1)
  else if os_grant (brk s) increment
       then (brk s, set_brk (brk s + increment) s1)
       else (SBRK_FAILED, s1).

Definition pthread_mutex_lock (s : state) : state := log Lock s.
Definition pthread_mutex_unlock (s : state) : state := log Unlock s.

(** ** get_free_block *)

Fixpoint get_free_block_from (fuel : nat) (curr size : Z) (s : state) : res Z :=
  match fuel with
  | O => OutOfFuel
  | S fuel' =>
      if curr =? NULL then Ok NULL
      else
        h ← load curr s;
        if s_is_free h && (size <=? s_size h) then Ok curr
        else get_free_block_from fuel' (s_next h) size s
  end.

Definition get_free_block (fuel : nat) (size : Z) (s : state) : res Z :=
  get_free_block_from fuel (head s) size s.

(** ** free *)

(** The loop of [free] that looks for the header in front of [tail]. *)
Fixpoint unlink_from (fuel : nat) (tmp : Z) (s : state) : res state :=
  match fuel with
  | O => OutOfFuel
  | S fuel' =>
      if tmp =? NULL then Ok s
      else
        h ← load tmp s;
        s1 ← (if s_next h =? tail s
              then s' ← store_next tmp NULL s; Ok (set_tail tmp s')
              else Ok s);
        h1 ← load tmp s1;
        unlink_from fuel' (s_next h1) s1
  end.

Definition free `{Platform} (fuel : nat) (block : Z) (s : state) : res state :=
  if block =? NULL then Ok s
  else
    let s := pthread_mutex_lock s in
    let hdr := wrap (block - header_size) in
    let '(programbreak, s) := sbrk 0 s in
    h ← load hdr s;
    if wrap (block + s_size h) =? programbreak then
      s ← (if head s =? tail s
           then Ok (set_tail NULL (set_head NULL s))
           else unlink_from fuel (head s) s);
      h' ← load hdr s;
      let '(_, s) := sbrk (to_signed (wrap (0 - s_size h' - header_size))) s in
      Ok (pthread_mutex_unlock s)
    else
      s ← store_is_free hdr true s;
      Ok (pthread_mutex_unlock s).

(** ** malloc *)

Definition malloc `{Platform} (fuel : nat) (size : Z) (s : state) : res (Z * state) :=
  if size =? 0 then Ok (NULL, s)
  else
    let s := pthread_mutex_lock s in
    hdr ← get_free_block fuel size s;
    if negb (hdr =? NULL) then
      s ← store_is_free hdr false s;
      Ok (wrap (hdr + header_size), pthread_mutex_unlock s)
    else
      let total_size := wrap (header_size + size) in
      let '(block, s) := sbrk (to_signed total_size) s in
      if block =? SBRK_FAILED then Ok (NULL, pthread_mutex_unlock s)
      else
        let hdr := block in
        let s := store_header hdr (mkHeader size false NULL) s in
        let s := if head s =? NULL then set_head hdr s else s in
        s ← (if negb (tail s =? NULL) then store_next (tail s) hdr s else Ok s);
        let s := set_tail hdr s in
        Ok (wrap (hdr + header_size), pthread_mutex_unlock s).

(** ** calloc *)

Definition calloc `{Platform} (fuel : nat) (num nsize : Z) (s : state) : res (Z * state) :=
  if (num =? 0) || (nsize =? 0) then Ok (NULL, s)
  else
    let size := wrap (num * nsize) in
    q ← udiv size num;
    if negb (nsize =? q) then Ok (NULL, s)
    else
      '(block, s) ← malloc fuel size s;
      if block =? NULL then Ok (NULL, s)
      else Ok (block, memset block 0 size s).

(** ** realloc *)

Definition realloc `{Platform} (fuel : nat) (block size : Z) (s : state) : res (Z * state) :=
  if (block =? NULL) || (size =? 0) then malloc fuel size s
  else
    let hdr := wrap (block - header_size) in
    h ← load hdr s;
    if size <=? s_size h then Ok (block, s)
    else
      '(ret, s) ← malloc fuel size s;
      if negb (ret =? NULL) then
        h' ← load hdr s;
        let s := memcpy ret block (s_size h') s in
        s ← free fuel block s;
        Ok (ret, s)
      else Ok (ret, s).

(** ** Well-formed directories *)

Section Directory.
Context `{P : Platform}.

(** [fits hd n x]: the test of [get_free_block] on the header at [x]. *)
Definition fits (hd : gmap Z header) (n x : Z) : bool :=
  match hd !! x with
  | Some h => s_is_free h && (n <=? s_size h)
  | None => false
  end.

(** First fit over the directory listed head to tail. *)
Definition first_fit (hd : gmap Z header) (n : Z) (l : list Z) : Z :=
  match find (fits hd n) l with
  | Some x => x
  | None => NULL
  end.

(** [dir_seg hd lim a l]: following [s_next] from [a] visits the headers at
    the addresses [l], in this order, and then reaches NULL.  Blocks lie in
    address order: each one ends at or below the start of its successor, the
    last one at or below [lim].  No block is empty and none has a total size
    of half the address space or more. *)
Fixpoint dir_seg (hd : gmap Z header) (lim a : Z) (l : list Z) : Prop :=
  match l with
  | [] => a = NULL
  | x :: l' =>
      a = x /\ 0 < x /\
      exists h, hd !! x = Some h /\
        0 < s_size h /\ header_size + s_size h < half /\
        x + header_size + s_size h <= List.hd lim l' /\
        dir_seg hd lim (s_next h) l'
  end.

(** The state holds the directory [l]: [head] starts it, [tail] is its last
    header, and the break is a valid address above every block. *)
Record wf (s : state) (l : list Z) : Prop := {
  wf_seg : dir_seg (hdrs s) (brk s) (head s) l;
  wf_tail : tail s = List.last l NULL;
  wf_brk : 0 < brk s < modulus
}.

End Directory.

(** ** The states the operations lead to, in closed form *)

Section PostStates.
Context `{P : Platform}.

Definition with_trace (evs : list event) (s : state) : state :=
  mkState (head s) (tail s) (hdrs s) (mem s) (brk s) (trace s ++ evs).

(** [malloc] reused the header [h] at [x]. *)
Definition reuse_state (x : Z) (h : header) (s : state) : state :=
  mkState (head s) (tail s)
          (<[x := mkHeader (s_size h) false (s_next h)]> (hdrs s))
          (mem s) (brk s) (trace s ++ [Lock; Unlock]).

(** [tail->s.next = b] when there is a tail. *)
Definition link_tail (t b : Z) (hd : gmap Z header) : gmap Z header :=
  if t =? NULL then hd
  else match hd !! t with
       | Some h => <[t := mkHeader (s_size h) (s_is_free h) b]> hd
       | None => hd
       end.

(** [malloc] carved a block of payload size [n] at the break, which moved
    by [d]. *)
Definition carve_state (n d : Z) (s : state) : state :=
  mkState (if head s =? NULL then brk s else head s) (brk s)
          (link_tail (tail s) (brk s) (<[brk s := mkHeader n false NULL]> (hdrs s)))
          (mem s) (brk s + d) (trace s ++ [Lock; Sbrk d; Unlock]).

(** [free] marked the header [h] at [x] free. *)
Definition mark_state (x : Z) (h : header) (s : state) : state :=
  mkState (head s) (tail s)
          (<[x := mkHeader (s_size h) true (s_next h)]> (hdrs s))
          (mem s) (brk s) (trace s ++ [Lock; Sbrk 0; Unlock]).

Definition clear_next (a : Z) (hd : gmap Z header) : gmap Z header :=
  match hd !! a with
  | Some h => <[a := mkHeader (s_size h) (s_is_free h) NULL]> hd
  | None => hd
  end.

(** [free] unlinked the last header, of payload size [n], from the directory
    [l0 ++ [x]] and asked the break to move down by [header_size + n]. *)
Definition shrink_state (l0 : list Z) (n : Z) (s : state) : state :=
  let d := - (header_size + n) in
  mkState (match l0 with [] => NULL | _ => head s end)
          (List.last l0 NULL)
          (match l0 with [] => hdrs s | _ => clear_next (List.last l0 NULL) (hdrs s) end)
          (mem s)
          (if os_grant (brk s) d then brk s + d else brk s)
          (trace s ++ [Lock; Sbrk 0; Sbrk d; Unlock]).

End PostStates.

Section Held.
Context `{P : Platform}.


End Held.

(** ** Sequences of operations *)

Inductive op :=
| Allocate (n : Z)
| ZeroAllocate (num nsize : Z)
| Resize (p n : Z)
| Release (p : Z).

Definition step `{Platform} (fuel : nat) (o : op) (s : state) : res state :=
  match o with
  | Allocate n => r ← malloc fuel n s; Ok (snd r)
  | ZeroAllocate num nsize => r ← calloc fuel num nsize s; Ok (snd r)
  | Resize p n => r ← realloc fuel p n s; Ok (snd r)
  | Release p => free fuel p s
  end.

(** A size whose block, header included, overflows neither the size type
    nor the signed argument of [sbrk]. *)
Definition size_ok `{Platform} (n : Z) : Prop := 0 <= n /\ header_size + n < half.

(** A pointer the caller may pass: null or the payload of a listed block. *)
Definition ptr_ok `{Platform} (l : list Z) (p : Z) : Prop :=
  p = NULL \/ exists x, x ∈ l /\ p = x + header_size.

Definition op_ok `{Platform} (l : list Z) (o : op) : Prop :=
  match o with
  | Allocate n => size_ok n
  | ZeroAllocate num nsize =>
      0 <= num < modulus /\ 0 <= nsize < modulus /\
      (num * nsize < modulus -> size_ok (num * nsize))
  | Resize p n => ptr_ok l p /\ size_ok n
  | Release p => ptr_ok l p
  end.

(** [stays fuel x s s']: a sequence of admissible operations leads from [s]
    to [s'], and the header at [x] is listed in every state on the way. *)
Inductive stays `{Platform} (fuel : nat) (x : Z) : state -> state -> Prop :=
| stays_here s l : wf s l -> x ∈ l -> stays fuel x s s
| stays_step s l o s1 s2 :
    wf s l -> x ∈ l -> op_ok l o -> (length l + 1 < fuel)%nat ->
    step fuel o s = Ok s1 -> stays fuel x s1 s2 -> stays fuel x s s2.

(** ** Two claims as the specification states them *)

(** C9 as stated, for one operation: a header listed before and after keeps
    its [s_size] and its [s_next]. *)
Definition only_is_free_mutated `{Platform} : Prop :=
  forall fuel o s l s' l' x h h',
    wf s l -> op_ok l o -> step fuel o s = Ok s' -> wf s' l' ->
    x ∈ l -> x ∈ l' -> hdrs s !! x = Some h -> hdrs s' !! x = Some h' ->
    s_size h' = s_size h /\ s_next h' = s_next h.

(** C5 as stated: every non-null [p] and every [m] up to the recorded size
    give back [p] and the unchanged state. *)
Definition resize_within_returns_block `{Platform} : Prop :=
  forall fuel p m s h,
    p <> NULL -> hdrs s !! wrap (p - header_size) = Some h ->
    0 <= m <= s_size h ->
    realloc fuel p m s = Ok (p, s).

(** ** A concrete platform and concrete states *)

(** LP64 with room for the break up to 1 MiB. *)
Definition demo : Platform := lp64 1048576.

(** LP64 where the break may move anywhere in the address space. *)
Definition demo_wide : Platform := lp64 (2 ^ 64 - 1).

(** The heap after [a = malloc(64)] at break 4096: one block. *)
Definition heap1 : state :=
  mkState 4096 4096 (<[4096 := mkHeader 64 false NULL]> ∅) (fun _ => 0) 4184
          [Lock; Sbrk 88; Unlock].

(** The heap after [a = malloc(64); b = malloc(64)]: two blocks. *)
Definition heap2 : state :=
  mkState 4096 4184
          (<[4096 := mkHeader 64 false 4184]> (<[4184 := mkHeader 64 false NULL]> ∅))
          (fun _ => 0) 4272
          [Lock; Sbrk 88; Unlock; Lock; Sbrk 88; Unlock].

(** The heap after [a = malloc(64); b = malloc(64); free(a)]. *)
Definition heap3 : state :=
  mkState 4096 4184
          (<[4096 := mkHeader 64 true 4184]>
             (<[4096 := mkHeader 64 false 4184]> (<[4184 := mkHeader 64 false NULL]> ∅)))
          (fun _ => 0) 4272
          [Lock; Sbrk 88; Unlock; Lock; Sbrk 88; Unlock; Lock; Sbrk 0; Unlock].


(** ** Reachable states *)

(** The states that admissible operations lead to from the empty directory
    with the break at [b]. *)
Inductive reachable `{Platform} (fuel : nat) (b : Z) : state -> Prop :=
| reach_initial : reachable fuel b (initial b)
| reach_step s l o s' :
    reachable fuel b s -> wf s l -> op_ok l o -> (length l + 1 < fuel)%nat ->
    step fuel o s = Ok s' -> reachable fuel b s'.

(** The steps the four operations are made of: one call of [malloc] with a
    size in range, one call of [free] on a listed block, or a write to
    payload bytes. *)
Inductive prim `{Platform} (fuel : nat) : state -> state -> Prop :=
| prim_malloc s l n r s' :
    wf s l -> size_ok n -> (length l < fuel)%nat ->
    malloc fuel n s = Ok (r, s') -> prim fuel s s'
| prim_free s l x0 s' :
    wf s l -> x0 ∈ l -> (length l < fuel)%nat ->
    free fuel (x0 + header_size) s = Ok s' -> prim fuel s s'
| prim_mem s m : prim fuel s (set_mem m s).

(** [tight hd c l lim]: the blocks [l] follow one another without a gap from
    address [c] up to [lim]. *)
Fixpoint tight `{Platform} (hd : gmap Z header) (c : Z) (l : list Z) (lim : Z) : Prop :=
  match l with
  | [] => c = lim
  | x :: l' =>
      x = c /\ exists h, hd !! x = Some h /\
        tight hd (x + header_size + s_size h) l' lim
  end.

(** The bytes the blocks [l] take, headers included. *)
Fixpoint footprint `{Platform} (hd : gmap Z header) (l : list Z) : Z :=
  match l with
  | [] => 0
  | x :: l' =>
      match hd !! x with
      | Some h => header_size + s_size h
      | None => 0
      end + footprint hd l'
  end.

(** ** Arithmetic of the size type *)

Section Arith.
Context `{P : Platform} (HP : platform_ok).

Lemma modulus_half : modulus = 2 * half.
Proof.
  unfold modulus, half. destruct HP as [Hb _ _ _].
  replace size_bits with (Z.succ (size_bits - 1)) at 1 by lia.
  rewrite Z.pow_succ_r by lia. reflexivity.
Qed.

Lemma half_pos : 0 < half.
Proof. unfold half. destruct HP as [Hb _ _ _]. apply Z.pow_pos_nonneg; lia. Qed.

Lemma wrap_small z : 0 <= z < modulus -> wrap z = z.
Proof. intros Hz. unfold wrap. apply Z.mod_small. exact Hz. Qed.

Lemma wrap_range z : 0 <= wrap z < modulus.
Proof.
  unfold wrap. apply Z.mod_pos_bound.
  pose proof modulus_half. pose proof half_pos. lia.
Qed.

Lemma wrap_minus_modulus z : modulus <= z < 2 * modulus -> wrap z = z - modulus.
Proof.
  intros Hz. unfold wrap. symmetry.
  apply (Z.mod_unique z modulus 1); lia.
Qed.

Lemma wrap_neg z : 0 < z <= modulus -> wrap (- z) = modulus - z.
Proof.
  intros Hz. unfold wrap. symmetry.
  apply (Z.mod_unique (- z) modulus (-1)); lia.
Qed.

Lemma sbrk_failed_eq : SBRK_FAILED = modulus - 1.
Proof.
  unfold SBRK_FAILED. pose proof modulus_half. pose proof half_pos.
  change (-1) with (- (1)). rewrite wrap_neg; lia.
Qed.

Lemma to_signed_small z : z < half -> to_signed z = z.
Proof. intros Hz. unfold to_signed. destruct (Z.ltb_spec z half); lia. Qed.

Lemma to_signed_big z : half <= z -> to_signed z = z - modulus.
Proof. intros Hz. unfold to_signed. destruct (Z.ltb_spec z half); lia. Qed.

(** The argument of the shrinking [sbrk] in [free]. *)
Lemma shrink_increment n :
  0 < header_size + n <= half ->
  to_signed (wrap (0 - n - header_size)) = - (header_size + n).
Proof.
  intros Hn. pose proof modulus_half. pose proof half_pos.
  replace (0 - n - header_size) with (- (header_size + n)) by lia.
  rewrite wrap_neg by lia. rewrite to_signed_big by lia. lia.
Qed.

(** The argument of the growing [sbrk] in [malloc]. *)
Lemma grow_increment n :
  0 <= n -> header_size + n < half ->
  to_signed (wrap (header_size + n)) = header_size + n.
Proof.
  intros Hn Hs. pose proof modulus_half. destruct HP as [_ Hh _ _].
  rewrite wrap_small by lia. apply to_signed_small. lia.
Qed.

End Arith.

(** ** Facts about directory segments *)

Section DirectoryFacts.
Context `{P : Platform} (HP : platform_ok).

Lemma dir_seg_hd_le hd lim a l : dir_seg hd lim a l -> List.hd lim l <= lim.
Proof.
  revert a. induction l as [|x l IH]; intros a Hseg; simpl in *; [lia|].
  destruct Hseg as (_ & _ & h & _ & Hsz & _ & Hend & Hrest).
  specialize (IH _ Hrest). destruct HP as [_ Hh _ _]. lia.
Qed.

Lemma dir_seg_hd_min hd lim a l y :
  dir_seg hd lim a l -> y ∈ l -> List.hd lim l <= y.
Proof.
  revert a. induction l as [|x l IH]; intros a Hseg Hy.
  - inversion Hy.
  - simpl in *. destruct Hseg as (_ & _ & h & _ & Hsz & _ & Hend & Hrest).
    apply elem_of_cons in Hy as [->|Hy]; [lia|].
    specialize (IH _ Hrest Hy). destruct HP as [_ Hh _ _]. lia.
Qed.

(** Every listed header is stored, non-null and inside the region. *)
Lemma dir_seg_elem hd lim a l x :
  dir_seg hd lim a l -> x ∈ l ->
  exists h, hd !! x = Some h /\ 0 < x /\ 0 < s_size h /\
            header_size + s_size h < half /\ x + header_size + s_size h <= lim.
Proof.
  revert a. induction l as [|y l IH]; intros a Hseg Hx.
  - inversion Hx.
  - simpl in Hseg. destruct Hseg as (_ & Hy & h & Hl & Hsz & Hsm & Hend & Hrest).
    apply elem_of_cons in Hx as [->|Hx].
    + exists h. pose proof (dir_seg_hd_le _ _ _ _ Hrest). repeat split; (assumption || lia).
    + eapply IH; eassumption.
Qed.

(** The header at position [l1 ++ x :: l2]: it ends below whatever follows,
    and everything in front of it lies at a lower address. *)
Lemma dir_seg_split hd lim a l1 x l2 :
  dir_seg hd lim a (l1 ++ x :: l2) ->
  exists h, hd !! x = Some h /\ 0 < x /\ 0 < s_size h /\
            header_size + s_size h < half /\
            x + header_size + s_size h <= List.hd lim l2 /\
            dir_seg hd lim (s_next h) l2 /\
            (forall y, y ∈ l1 -> y < x).
Proof.
  revert a. induction l1 as [|z l1 IH]; intros a Hseg; simpl in Hseg.
  - destruct Hseg as (_ & Hx & h & Hl & Hsz & Hsm & Hend & Hrest).
    exists h. repeat split; try assumption. intros y Hy. inversion Hy.
  - destruct Hseg as (_ & Hz & hz & Hlz & Hsz & Hsm & Hend & Hrest).
    destruct (IH _ Hrest) as (h & Hl & Hx & Hs & Hm & He & Hr & Hlt).
    exists h. repeat split; try assumption.
    intros y Hy. apply elem_of_cons in Hy as [->|Hy]; [|auto].
    assert (List.hd lim (l1 ++ x :: l2) <= x).
    { eapply dir_seg_hd_min; [eassumption|]. apply elem_of_app. right. left. }
    destruct HP as [_ Hh _ _]. lia.
Qed.

Lemma dir_seg_after hd lim a l1 x l2 h y :
  dir_seg hd lim a (l1 ++ x :: l2) -> hd !! x = Some h -> y ∈ l2 ->
  x + header_size + s_size h <= y.
Proof.
  intros Hseg Hl Hy.
  destruct (dir_seg_split _ _ _ _ _ _ Hseg) as (h' & Hl' & _ & _ & _ & He & Hr & _).
  assert (h' = h) by congruence. subst h'.
  pose proof (dir_seg_hd_min _ _ _ _ _ Hr Hy). lia.
Qed.

Lemma dir_seg_NoDup hd lim a l : dir_seg hd lim a l -> NoDup l.
Proof.
  revert a. induction l as [|x l IH]; intros a Hseg; [constructor|].
  pose proof Hseg as Hseg'. simpl in Hseg.
  destruct Hseg as (_ & _ & h & Hl & Hsz & _ & _ & Hrest).
  constructor; [|eapply IH; eassumption].
  intros Hx.
  pose proof (dir_seg_after hd lim a [] x l h x Hseg' Hl Hx).
  destruct HP as [_ Hh _ _]. lia.
Qed.

Lemma dir_seg_head_null hd lim a l : dir_seg hd lim a l -> (a = NULL <-> l = []).
Proof.
  destruct l as [|x l]; simpl.
  - intros ->. split; reflexivity.
  - intros (-> & Hx & _). unfold NULL. split; [lia|discriminate].
Qed.

(** Headers off the list, and the [s_is_free] field of those on it, do not
    matter to a segment; neither does raising the limit. *)
Lemma dir_seg_frame hd hd' lim lim' a l :
  dir_seg hd lim a l -> lim <= lim' ->
  (forall x h, x ∈ l -> hd !! x = Some h ->
     exists h', hd' !! x = Some h' /\ s_size h' = s_size h /\ s_next h' = s_next h) ->
  dir_seg hd' lim' a l.
Proof.
  revert a. induction l as [|x l IH]; intros a Hseg Hlim Hsame; simpl in *; [assumption|].
  destruct Hseg as (-> & Hx & h & Hl & Hsz & Hsm & Hend & Hrest).
  destruct (Hsame x h) as (h' & Hl' & Hs' & Hn'); [left|assumption|].
  split; [reflexivity|]. split; [assumption|].
  exists h'. rewrite Hs', Hn'. repeat split; try assumption.
  - destruct l; simpl in *; lia.
  - apply IH; [assumption|assumption|].
    intros y hy Hy. apply Hsame. right. assumption.
Qed.

Lemma last_cons_cons (x y : Z) l : List.last (x :: y :: l) NULL = List.last (y :: l) NULL.
Proof. reflexivity. Qed.

Lemma last_elem_of (l : list Z) : l <> [] -> List.last l NULL ∈ l.
Proof.
  intros Hne. induction l as [|x l IH]; [congruence|].
  destruct l as [|y l]; [left|]. rewrite last_cons_cons. right. apply IH. discriminate.
Qed.

Lemma dir_seg_cons hd lim x l h :
  hd !! x = Some h -> 0 < x -> 0 < s_size h -> header_size + s_size h < half ->
  x + header_size + s_size h <= List.hd lim l -> dir_seg hd lim (s_next h) l ->
  dir_seg hd lim x (x :: l).
Proof.
  intros Hl Hx Hs Hsm He Hr. simpl. split; [reflexivity|]. split; [assumption|].
  exists h. auto.
Qed.

(** Appending a fresh header at [b], at or above the old limit. *)
Lemma dir_seg_append hd lim lim' a l b n ht :
  l <> [] -> dir_seg hd lim a l -> hd !! List.last l NULL = Some ht ->
  lim <= b -> 0 < n -> header_size + n < half -> b + header_size + n <= lim' ->
  dir_seg (<[List.last l NULL := mkHeader (s_size ht) (s_is_free ht) b]>
             (<[b := mkHeader n false NULL]> hd)) lim' a (l ++ [b]).
Proof.
  intros Hne Hseg Hlast Hb Hn Hsm Hlim'. revert a Hseg Hlast.
  induction l as [|x l IH]; [congruence|]. intros a Hseg Hlast.
  pose proof (dir_seg_elem _ _ _ _ x Hseg ltac:(left)) as (hx & Hlx & Hx0 & Hxs & _ & Hxe).
  pose proof (dir_seg_NoDup _ _ _ _ Hseg) as Hnd.
  simpl in Hseg. destruct Hseg as (-> & _ & h & Hl & Hsz & Hsmx & Hend & Hrest).
  assert (h = hx) by congruence. subst hx.
  assert (Hxb : x <> b) by (destruct HP as [_ Hh _ _]; lia).
  assert (Hb0 : 0 < b) by (destruct HP as [_ Hh _ _]; lia).
  destruct l as [|y l].
  - simpl in Hlast, Hend. assert (ht = h) by congruence. subst ht.
    change ([x] ++ [b]) with [x; b]. change (List.last [x] NULL) with x.
    eapply dir_seg_cons.
    + apply lookup_insert_eq.
    + assumption.
    + assumption.
    + assumption.
    + simpl. lia.
    + simpl s_next. eapply dir_seg_cons.
      * rewrite lookup_insert_ne by assumption. apply lookup_insert_eq.
      * assumption.
      * assumption.
      * assumption.
      * simpl. lia.
      * reflexivity.
  - rewrite last_cons_cons in *.
    assert (Hxl : x <> List.last (y :: l) NULL).
    { intros Heq. apply NoDup_cons in Hnd as [Hnin _]. apply Hnin. rewrite Heq.
      apply last_elem_of. discriminate. }
    change ((x :: y :: l) ++ [b]) with (x :: ((y :: l) ++ [b])).
    eapply dir_seg_cons.
    + rewrite lookup_insert_ne by congruence.
      rewrite lookup_insert_ne by congruence. eassumption.
    + assumption.
    + assumption.
    + assumption.
    + simpl in *. assumption.
    + apply IH; [discriminate|assumption|assumption].
Qed.

(** Dropping the last header [t] when the limit stays at or above [t]. *)
Lemma dir_seg_drop_last hd lim lim' a l0 pred t hp :
  dir_seg hd lim a (l0 ++ [pred; t]) -> hd !! pred = Some hp -> t <= lim' ->
  dir_seg (<[pred := mkHeader (s_size hp) (s_is_free hp) NULL]> hd) lim' a (l0 ++ [pred]).
Proof.
  intros Hseg Hlp Hlim. revert a Hseg.
  induction l0 as [|x l0 IH]; intros a Hseg.
  - simpl in Hseg. destruct Hseg as (-> & Hp0 & h & Hl & Hsz & Hsm & Hend & Hrest).
    assert (h = hp) by congruence. subst h.
    change ([] ++ [pred]) with [pred].
    eapply dir_seg_cons.
    + apply lookup_insert_eq.
    + assumption.
    + assumption.
    + assumption.
    + simpl in *. lia.
    + reflexivity.
  - pose proof (dir_seg_NoDup _ _ _ _ Hseg) as Hnd.
    simpl in Hseg. destruct Hseg as (-> & Hx0 & h & Hl & Hsz & Hsm & Hend & Hrest).
    assert (x <> pred).
    { intros ->. apply NoDup_cons in Hnd as [Hnin _]. apply Hnin.
      apply elem_of_app. right. left. }
    change ((x :: l0) ++ [pred]) with (x :: (l0 ++ [pred])).
    eapply dir_seg_cons.
    + rewrite lookup_insert_ne by congruence. eassumption.
    + assumption.
    + assumption.
    + assumption.
    + destruct l0; simpl in *; assumption.
    + apply IH. assumption.
Qed.

End DirectoryFacts.

(** ** The two loops on a well-formed directory *)

Section Loops.
Context `{P : Platform} (HP : platform_ok).

Lemma load_Some a s h : hdrs s !! a = Some h -> load a s = Ok h.
Proof. intros Hl. unfold load. rewrite Hl. reflexivity. Qed.

Lemma first_fit_cons hd n x l :
  first_fit hd n (x :: l) = if fits hd n x then x else first_fit hd n l.
Proof. unfold first_fit. simpl. destruct (fits hd n x); reflexivity. Qed.

(** With fuel for one step per header and one more, [get_free_block]
    terminates and finds the first fit. *)
Lemma get_free_block_from_spec s lim n l : forall a fuel,
  dir_seg (hdrs s) lim a l -> (length l < fuel)%nat ->
  get_free_block_from fuel a n s = Ok (first_fit (hdrs s) n l).
Proof.
  induction l as [|x l IH]; intros a fuel Hseg Hfuel.
  - simpl in Hseg. subst a. destruct fuel as [|fuel]; [simpl in Hfuel; lia|]. reflexivity.
  - simpl in Hseg. destruct Hseg as (-> & Hx & h & Hl & _ & _ & _ & Hrest).
    destruct fuel as [|fuel]; [simpl in Hfuel; lia|].
    simpl in Hfuel. simpl get_free_block_from.
    destruct (Z.eqb_spec x NULL) as [E|_]; [unfold NULL in E; lia|].
    rewrite (load_Some _ _ _ Hl). simpl.
    rewrite first_fit_cons. unfold fits at 1. rewrite Hl.
    destruct (s_is_free h && (n <=? s_size h)); [reflexivity|].
    apply IH; [assumption|lia].
Qed.

Lemma first_fit_elem hd n l x :
  first_fit hd n l = x -> x <> NULL -> x ∈ l /\ fits hd n x = true.
Proof.
  unfold first_fit. intros Hf Hx.
  destruct (find (fits hd n) l) as [y|] eqn:E; [|congruence].
  subst y. apply find_some in E as [Hin Hfit].
  split; [apply list_elem_of_In; assumption|assumption].
Qed.




(** The predecessor search of [free]: on the directory [l0 ++ [pred; t]]
    with [tail = t] it clears [pred]'s link and makes [pred] the tail. *)
Lemma unlink_from_spec s lim pred t hp : forall l0 a fuel,
  dir_seg (hdrs s) lim a (l0 ++ [pred; t]) -> tail s = t ->
  hdrs s !! pred = Some hp -> (length (l0 ++ [pred; t]) < fuel)%nat ->
  unlink_from fuel a s =
    Ok (set_tail pred
          (set_hdrs (<[pred := mkHeader (s_size hp) (s_is_free hp) NULL]> (hdrs s)) s)).
Proof.
  induction l0 as [|x l0 IH]; intros a fuel Hseg Ht Hlp Hfuel.
  - simpl in Hseg. destruct Hseg as (-> & Hp0 & h & Hl & _ & _ & _ & Hn & _).
    assert (h = hp) by congruence. subst h.
    destruct fuel as [|[|fuel]]; [simpl in Hfuel; lia|simpl in Hfuel; lia|].
    simpl unlink_from.
    destruct (Z.eqb_spec pred NULL) as [E|_]; [unfold NULL in E; lia|].
    rewrite (load_Some _ _ _ Hlp). simpl.
    rewrite Hn, Ht, Z.eqb_refl. unfold store_next.
    rewrite (load_Some _ _ _ Hlp). simpl.
    unfold load. simpl. rewrite lookup_insert_eq. simpl. reflexivity.
  - pose proof (dir_seg_NoDup HP _ _ _ _ Hseg) as Hnd.
    simpl in Hseg. destruct Hseg as (-> & Hx0 & h & Hl & _ & _ & _ & Hrest).
    destruct fuel as [|fuel]; [simpl in Hfuel; lia|]. simpl in Hfuel.
    simpl unlink_from.
    destruct (Z.eqb_spec x NULL) as [E|_]; [unfold NULL in E; lia|].
    rewrite (load_Some _ _ _ Hl). simpl.
    assert (Hne : s_next h <> tail s).
    { rewrite Ht. intros Heq.
      change ((x :: l0) ++ [pred; t]) with (x :: (l0 ++ [pred; t])) in Hnd.
      apply NoDup_cons in Hnd as [_ Hnd].
      destruct l0 as [|y l0]; simpl in Hrest.
      - destruct Hrest as (Hy & _). rewrite Heq in Hy. subst pred.
        apply NoDup_cons in Hnd as [Hnin _]. apply Hnin. left.
      - destruct Hrest as (Hy & _). rewrite Heq in Hy. subst y.
        simpl in Hnd. apply NoDup_cons in Hnd as [Hnin _]. apply Hnin.
        apply elem_of_app. right. right. left. }
    destruct (Z.eqb_spec (s_next h) (tail s)) as [E|_]; [contradiction|].
    simpl. rewrite (load_Some _ _ _ Hl). simpl.
    apply IH; [assumption|assumption|assumption|lia].
Qed.

End Loops.

(** ** What each operation does on a well-formed directory *)

Section Operations.
Context `{P : Platform} (HP : platform_ok).

Lemma wf_elem s l x :
  wf s l -> x ∈ l ->
  exists h, hdrs s !! x = Some h /\ 0 < x /\ 0 < s_size h /\
            header_size + s_size h < half /\ x + header_size + s_size h <= brk s.
Proof. intros [Hseg _ _] Hx. eapply dir_seg_elem; eassumption. Qed.

Lemma wf_empty s : wf s [] -> head s = NULL /\ tail s = NULL.
Proof. intros [Hseg Ht _]. simpl in *. auto. Qed.

Lemma wf_initial b : 0 < b < modulus -> wf (initial b) [].
Proof. intros Hb. constructor; simpl; auto. Qed.

(** Pointer arithmetic on a listed block does not wrap. *)
Lemma wf_pointers s l x h :
  wf s l -> x ∈ l -> hdrs s !! x = Some h ->
  wrap (x + header_size) = x + header_size /\
  wrap (x + header_size - header_size) = x /\
  wrap (x + header_size + s_size h) = x + header_size + s_size h /\
  x + header_size <> NULL.
Proof.
  intros Hwf Hx Hl.
  destruct (wf_elem _ _ _ Hwf Hx) as (h' & Hl' & Hx0 & Hs & Hsm & He).
  assert (h' = h) by congruence. subst h'.
  destruct Hwf as [_ _ Hb]. destruct HP as [_ Hh _ _].
  repeat split; try (rewrite wrap_small by lia; lia). unfold NULL. lia.
Qed.

Lemma malloc_zero fuel s : malloc fuel 0 s = Ok (NULL, s).
Proof. reflexivity. Qed.

Lemma get_free_block_wf fuel n s l :
  wf s l -> (length l < fuel)%nat ->
  get_free_block fuel n (pthread_mutex_lock s) = Ok (first_fit (hdrs s) n l).
Proof.
  intros [Hseg _ _] Hfuel. unfold get_free_block.
  apply (get_free_block_from_spec (pthread_mutex_lock s) (brk s)); assumption.
Qed.

Lemma malloc_reuse fuel n s l x h :
  wf s l -> n <> 0 -> (length l < fuel)%nat ->
  first_fit (hdrs s) n l = x -> x <> NULL -> hdrs s !! x = Some h ->
  malloc fuel n s = Ok (x + header_size, reuse_state x h s).
Proof.
  intros Hwf Hn Hfuel Hfit Hx Hl. unfold malloc.
  destruct (Z.eqb_spec n 0) as [|_]; [contradiction|].
  rewrite (get_free_block_wf _ _ _ _ Hwf Hfuel), Hfit. simpl.
  destruct (Z.eqb_spec x NULL) as [|_]; [contradiction|]. simpl.
  unfold store_is_free, load. simpl. rewrite Hl. simpl.
  destruct (first_fit_elem _ _ _ _ Hfit Hx) as [Hin _].
  destruct (wf_pointers _ _ _ _ Hwf Hin Hl) as (-> & _).
  unfold pthread_mutex_unlock, log, set_hdrs, reuse_state. simpl.
  rewrite <- app_assoc. reflexivity.
Qed.

Lemma malloc_fail fuel n s l d :
  wf s l -> n <> 0 -> (length l < fuel)%nat ->
  first_fit (hdrs s) n l = NULL ->
  d = to_signed (wrap (header_size + n)) ->
  d <> 0 -> os_grant (brk s) d = false ->
  malloc fuel n s = Ok (NULL, with_trace [Lock; Sbrk d; Unlock] s).
Proof.
  intros Hwf Hn Hfuel Hfit -> Hd Hg. unfold malloc.
  destruct (Z.eqb_spec n 0) as [|_]; [contradiction|].
  rewrite (get_free_block_wf _ _ _ _ Hwf Hfuel), Hfit. simpl.
  unfold sbrk. destruct (Z.eqb_spec (to_signed (wrap (header_size + n))) 0) as [|_];
    [contradiction|].
  simpl. rewrite Hg. rewrite Z.eqb_refl.
  unfold pthread_mutex_unlock, log, with_trace. simpl.
  rewrite <- !app_assoc. reflexivity.
Qed.

Lemma malloc_carve fuel n s l d :
  wf s l -> n <> 0 -> (length l < fuel)%nat ->
  first_fit (hdrs s) n l = NULL ->
  d = to_signed (wrap (header_size + n)) ->
  d = 0 \/ os_grant (brk s) d = true ->
  brk s <> SBRK_FAILED ->
  malloc fuel n s = Ok (wrap (brk s + header_size), carve_state n d s).
Proof.
  intros Hwf Hn Hfuel Hfit Hd Hg Hb. unfold malloc.
  destruct (Z.eqb_spec n 0) as [|_]; [contradiction|].
  rewrite (get_free_block_wf _ _ _ _ Hwf Hfuel), Hfit. simpl.
  rewrite <- Hd.
  assert (Hs : sbrk d (pthread_mutex_lock s) =
               (brk s, set_brk (brk s + d) (log (Sbrk d) (pthread_mutex_lock s)))).
  { unfold sbrk. destruct (Z.eqb_spec d 0) as [->|Hd0].
    - simpl. rewrite Z.add_0_r. destruct s; reflexivity.
    - destruct Hg as [|Hg]; [contradiction|]. simpl. simpl in Hg. rewrite Hg. reflexivity. }
  rewrite Hs. destruct (Z.eqb_spec (brk s) SBRK_FAILED) as [|_]; [contradiction|].
  assert (Hl : tail s <> NULL ->
               is_Some (<[brk s := mkHeader n false NULL]> (hdrs s) !! tail s)).
  { intros Et. destruct l as [|y l'].
    - destruct (wf_empty _ Hwf) as [_ E]. contradiction.
    - assert (Hin : tail s ∈ y :: l').
      { destruct Hwf as [_ -> _]. apply last_elem_of. discriminate. }
      destruct (wf_elem _ _ _ Hwf Hin) as (ht & Hlt & Ht0 & Hts & _ & Hte).
      rewrite lookup_insert_ne; [eauto|]. destruct HP as [_ Hh _ _]. lia. }
  simpl. unfold carve_state, link_tail.
  destruct (head s =? NULL); simpl;
    (destruct (Z.eqb_spec (tail s) NULL) as [Et|Et]; simpl;
     [ unfold pthread_mutex_unlock, log; simpl; rewrite <- !app_assoc; reflexivity
     | destruct (Hl Et) as [ht Hlt]; unfold store_next, load; simpl; rewrite Hlt; simpl;
       unfold pthread_mutex_unlock, log; simpl; rewrite <- !app_assoc; reflexivity ]).
Qed.

Lemma free_null fuel s : free fuel NULL s = Ok s.
Proof. reflexivity. Qed.

Lemma free_mark fuel s l x h :
  wf s l -> x ∈ l -> hdrs s !! x = Some h ->
  x + header_size + s_size h <> brk s ->
  free fuel (x + header_size) s = Ok (mark_state x h s).
Proof.
  intros Hwf Hx Hl Hne. unfold free.
  destruct (wf_pointers _ _ _ _ Hwf Hx Hl) as (_ & Hhdr & Hend & Hnn).
  destruct (Z.eqb_spec (x + header_size) NULL) as [|_]; [contradiction|].
  unfold sbrk. simpl. rewrite Hhdr.
  rewrite (load_Some x (log (Sbrk 0) (pthread_mutex_lock s)) h Hl). simpl.
  rewrite Hend. destruct (Z.eqb_spec (x + header_size + s_size h) (brk s)) as [|_];
    [contradiction|].
  unfold store_is_free, load. simpl. rewrite Hl. simpl.
  unfold pthread_mutex_unlock, log, mark_state. simpl.
  rewrite <- !app_assoc. reflexivity.
Qed.

(** A listed block that ends at the break is the last of the directory. *)
Lemma wf_last_at_break s l x h :
  wf s l -> x ∈ l -> hdrs s !! x = Some h ->
  x + header_size + s_size h = brk s -> exists l0, l = l0 ++ [x].
Proof.
  intros Hwf Hx Hl Hend.
  apply list_elem_of_split in Hx as (l1 & l2 & ->).
  exists l1. destruct l2 as [|y l2]; [reflexivity|exfalso].
  pose proof (dir_seg_after HP _ _ _ _ _ _ _ y (wf_seg _ _ Hwf) Hl ltac:(left)) as Hy.
  destruct (wf_elem _ _ y Hwf) as (hy & _ & _ & Hys & _ & Hye).
  { apply elem_of_app. right. right. left. }
  destruct HP as [_ Hh _ _]. lia.
Qed.

Lemma shrink_state_snoc l0 pred n s hp :
  hdrs s !! pred = Some hp ->
  shrink_state (l0 ++ [pred]) n s =
    mkState (head s) pred (<[pred := mkHeader (s_size hp) (s_is_free hp) NULL]> (hdrs s))
            (mem s)
            (if os_grant (brk s) (- (header_size + n))
             then brk s + - (header_size + n) else brk s)
            (trace s ++ [Lock; Sbrk 0; Sbrk (- (header_size + n)); Unlock]).
Proof.
  intros Hl. unfold shrink_state. rewrite last_last. unfold clear_next. rewrite Hl.
  destruct l0; reflexivity.
Qed.

Lemma free_shrink fuel s l0 x h :
  wf s (l0 ++ [x]) -> hdrs s !! x = Some h ->
  x + header_size + s_size h = brk s ->
  (length (l0 ++ [x]) < fuel)%nat ->
  free fuel (x + header_size) s = Ok (shrink_state l0 (s_size h) s).
Proof.
  intros Hwf Hl Hend Hfuel. unfold free.
  assert (Hx : x ∈ l0 ++ [x]) by (apply elem_of_app; right; left).
  destruct (wf_pointers _ _ _ _ Hwf Hx Hl) as (_ & Hhdr & Hwend & Hnn).
  destruct (wf_elem _ _ _ Hwf Hx) as (h' & Hl' & Hx0 & Hs & Hsm & _).
  assert (h' = h) by congruence. subst h'.
  destruct (Z.eqb_spec (x + header_size) NULL) as [|_]; [contradiction|].
  unfold sbrk at 1. simpl. rewrite Hhdr.
  rewrite (load_Some x (log (Sbrk 0) (pthread_mutex_lock s)) h Hl). simpl.
  rewrite Hwend. destruct (Z.eqb_spec (x + header_size + s_size h) (brk s)) as [_|];
    [|contradiction].
  assert (Hd : to_signed (wrap (0 - s_size h - header_size)) = - (header_size + s_size h)).
  { apply shrink_increment; [assumption|]. destruct HP as [_ Hh _ _]. lia. }
  assert (Hd0 : - (header_size + s_size h) <> 0) by (destruct HP as [_ Hh _ _]; lia).
  destruct l0 as [|y l0 _] using rev_ind.
  - destruct Hwf as [Hseg Ht _]. simpl in Hseg, Ht. destruct Hseg as (Hh & _).
    rewrite Hh, Ht, Z.eqb_refl. simpl. unfold load. simpl. rewrite Hl. simpl.
    rewrite Hd. unfold sbrk.
    destruct (Z.eqb_spec (- (header_size + s_size h)) 0) as [|_]; [contradiction|].
    unfold shrink_state. simpl.
    destruct (os_grant (brk s) (- (header_size + s_size h)));
      unfold pthread_mutex_unlock, log; simpl; rewrite <- !app_assoc; reflexivity.
  - rewrite <- app_assoc in Hwf, Hfuel. simpl in Hwf, Hfuel.
    pose proof (wf_seg _ _ Hwf) as Hseg. pose proof (wf_tail _ _ Hwf) as Ht.
    change (l0 ++ [y; x]) with (l0 ++ [y] ++ [x]) in Ht.
    rewrite app_assoc, last_last in Ht.
    destruct (dir_seg_split HP (hdrs s) (brk s) (head s) (l0 ++ [y]) x []) as (_ & _ & _ & _ & _ & _ & _ & Hlt).
    { rewrite <- app_assoc. exact Hseg. }
    assert (Hht : head s <> tail s).
    { rewrite Ht. intros Heq.
      assert (head s ∈ l0 ++ [y]).
      { destruct l0 as [|z l0]; simpl in Hseg; destruct Hseg as (-> & _); left. }
      specialize (Hlt _ H). lia. }
    destruct (Z.eqb_spec (head s) (tail s)) as [|_]; [contradiction|].
    destruct (wf_elem _ _ y Hwf) as (hy & Hly & _).
    { apply elem_of_app. right. left. }
    rewrite (unlink_from_spec HP _ (brk s) y x hy l0); [|exact Hseg|exact Ht|exact Hly|exact Hfuel].
    simpl. assert (Hyx : y <> x).
    { specialize (Hlt y). assert (y < x); [|lia]. apply Hlt. apply elem_of_app. right. left. }
    unfold load. simpl. rewrite lookup_insert_ne by assumption. rewrite Hl. simpl.
    rewrite Hd. unfold sbrk.
    destruct (Z.eqb_spec (- (header_size + s_size h)) 0) as [|_]; [contradiction|].
    rewrite (shrink_state_snoc _ _ _ _ _ Hly). simpl.
    destruct (os_grant (brk s) (- (header_size + s_size h)));
      unfold pthread_mutex_unlock, log; simpl; rewrite <- !app_assoc; reflexivity.
Qed.

End Operations.

(** ** Well-formedness is preserved *)

Section Preservation.
Context `{P : Platform} (HP : platform_ok).

(** Changing the [s_is_free] field of a listed header, the payload bytes or
    the trace keeps the directory. *)
Lemma wf_set_flag s l x h v m tr :
  wf s l -> hdrs s !! x = Some h ->
  wf (mkState (head s) (tail s) (<[x := mkHeader (s_size h) v (s_next h)]> (hdrs s))
              m (brk s) tr) l.
Proof.
  intros [Hseg Ht Hb] Hl. constructor; simpl; try assumption.
  eapply dir_seg_frame; [eassumption|lia|].
  intros y hy Hy Hly. destruct (decide (y = x)) as [->|Hne].
  - rewrite lookup_insert_eq. assert (hy = h) by congruence. subst hy. eauto.
  - rewrite lookup_insert_ne by congruence. eauto.
Qed.

Lemma wf_with_trace s l evs : wf s l -> wf (with_trace evs s) l.
Proof. intros [Hseg Ht Hb]. constructor; assumption. Qed.

Lemma wf_set_mem s l m : wf s l -> wf (set_mem m s) l.
Proof. intros [Hseg Ht Hb]. constructor; assumption. Qed.

Lemma wf_reuse s l x h : wf s l -> hdrs s !! x = Some h -> wf (reuse_state x h s) l.
Proof. intros Hwf Hl. apply wf_set_flag; assumption. Qed.

Lemma wf_mark s l x h : wf s l -> hdrs s !! x = Some h -> wf (mark_state x h s) l.
Proof. intros Hwf Hl. apply wf_set_flag; assumption. Qed.

(** A granted carve whose size computation does not overflow appends the
    old break to the directory. *)
Lemma wf_carve s l n :
  wf s l -> 0 < n -> header_size + n < half ->
  os_grant (brk s) (header_size + n) = true ->
  wf (carve_state n (header_size + n) s) (l ++ [brk s]).
Proof.
  intros Hwf Hn Hsm Hg. pose proof Hwf as [Hseg Ht Hb].
  pose proof (grant_in_range HP _ _ Hg) as Hr.
  pose proof (header_size_pos HP) as Hh.
  constructor; unfold carve_state; cbn [head tail hdrs brk].
  - destruct l as [|y l'].
    + simpl in Hseg, Ht. rewrite Hseg, Ht. unfold link_tail.
      rewrite Z.eqb_refl. change ([] ++ [brk s]) with [brk s].
      eapply dir_seg_cons.
      * apply lookup_insert_eq.
      * lia.
      * assumption.
      * assumption.
      * simpl. lia.
      * reflexivity.
    + assert (Hne : y :: l' <> []) by discriminate.
      assert (Hin : tail s ∈ y :: l') by (rewrite Ht; apply last_elem_of; assumption).
      destruct (wf_elem HP _ _ _ Hwf Hin) as (ht & Hlt & Ht0 & Hts & _ & Hte).
      assert (Hh0 : head s <> NULL).
      { intros E. apply (dir_seg_head_null _ _ _ _ Hseg) in E. congruence. }
      destruct (Z.eqb_spec (head s) NULL) as [|_]; [contradiction|].
      unfold link_tail. destruct (Z.eqb_spec (tail s) NULL) as [E|_];
        [unfold NULL in E; lia|].
      rewrite lookup_insert_ne by lia. rewrite Hlt. rewrite Ht.
      eapply dir_seg_append; try eassumption; try lia.
      rewrite <- Ht. assumption.
  - rewrite last_last. reflexivity.
  - lia.
Qed.

(** Releasing the block at the break drops the last header. *)
Lemma wf_shrink s l0 x h :
  wf s (l0 ++ [x]) -> hdrs s !! x = Some h ->
  x + header_size + s_size h = brk s ->
  wf (shrink_state l0 (s_size h) s) l0.
Proof.
  intros Hwf Hl Hend. pose proof Hwf as [Hseg Ht Hb].
  assert (Hx : x ∈ l0 ++ [x]) by (apply elem_of_app; right; left).
  destruct (wf_elem HP _ _ _ Hwf Hx) as (h' & Hl' & Hx0 & Hs & Hsm & _).
  assert (h' = h) by congruence. subst h'.
  pose proof (header_size_pos HP) as Hh.
  assert (Hbrk : 0 < (if os_grant (brk s) (- (header_size + s_size h))
                      then brk s + - (header_size + s_size h) else brk s) < modulus).
  { destruct (os_grant _ _); lia. }
  assert (Hlim : x <= (if os_grant (brk s) (- (header_size + s_size h))
                       then brk s + - (header_size + s_size h) else brk s)).
  { destruct (os_grant _ _); lia. }
  destruct l0 as [|y l0 _] using rev_ind.
  - constructor; unfold shrink_state; cbn [head tail hdrs brk];
      [reflexivity | reflexivity | exact Hbrk].
  - destruct (wf_elem HP _ _ y Hwf) as (hy & Hly & _).
    { apply elem_of_app. left. apply elem_of_app. right. left. }
    rewrite (shrink_state_snoc _ _ _ _ _ Hly).
    constructor; cbn [head tail hdrs brk].
    + rewrite <- app_assoc in Hseg.
      exact (dir_seg_drop_last HP _ _ _ _ _ _ _ _ Hseg Hly Hlim).
    + rewrite last_last. reflexivity.
    + assumption.
Qed.

End Preservation.

(** ** Which header fields an operation touches *)

Section Frames.
Context `{P : Platform} (HP : platform_ok).

Lemma dir_seg_last_next hd lim a l h :
  dir_seg hd lim a l -> l <> [] -> hd !! List.last l NULL = Some h -> s_next h = NULL.
Proof.
  revert a. induction l as [|x l IH]; intros a Hseg Hne Hl; [congruence|].
  simpl in Hseg. destruct Hseg as (_ & _ & hx & Hlx & _ & _ & _ & Hrest).
  destruct l as [|y l].
  - simpl in Hl, Hrest. congruence.
  - rewrite last_cons_cons in Hl. eapply IH; [eassumption|discriminate|assumption].
Qed.

Lemma wf_tail_elem s l : wf s l -> l <> [] -> tail s ∈ l.
Proof. intros [_ -> _] Hne. apply last_elem_of. assumption. Qed.

Lemma wf_tail_below s l : wf s l -> tail s <> brk s.
Proof.
  intros Hwf. destruct l as [|y l].
  - destruct (wf_empty _ Hwf) as [_ ->]. destruct Hwf as [_ _ Hb]. unfold NULL. lia.
  - destruct (wf_elem HP _ _ _ Hwf (wf_tail_elem _ _ Hwf ltac:(discriminate)))
      as (ht & _ & _ & Hs & _ & He).
    pose proof (header_size_pos HP). lia.
Qed.

(** The header carved by [malloc] is stored at the old break. *)
Lemma carve_lookup_new s l n d :
  wf s l -> hdrs (carve_state n d s) !! brk s = Some (mkHeader n false NULL).
Proof.
  intros Hwf. unfold carve_state, link_tail. cbn [hdrs].
  pose proof (wf_tail_below _ _ Hwf) as Hne.
  destruct (tail s =? NULL); [apply lookup_insert_eq|].
  destruct (<[brk s:=mkHeader n false NULL]> (hdrs s) !! tail s).
  - rewrite lookup_insert_ne by assumption. apply lookup_insert_eq.
  - apply lookup_insert_eq.
Qed.

(** A carve keeps every listed header except for the link of the old tail. *)
Lemma carve_lookup_old s l n d y hy :
  wf s l -> y ∈ l -> hdrs s !! y = Some hy ->
  exists hy', hdrs (carve_state n d s) !! y = Some hy' /\
    s_size hy' = s_size hy /\ s_is_free hy' = s_is_free hy /\
    (s_next hy' = s_next hy \/
     (y = tail s /\ s_next hy = NULL /\ s_next hy' = brk s)).
Proof.
  intros Hwf Hy Hly.
  destruct (wf_elem HP _ _ _ Hwf Hy) as (hy0 & Hly0 & Hy0 & Hys & _ & Hye).
  assert (hy0 = hy) by congruence. subst hy0.
  pose proof (header_size_pos HP) as Hh.
  assert (Hyb : brk s <> y) by lia.
  assert (Hne : l <> []) by (intros ->; inversion Hy).
  pose proof (wf_tail_elem _ _ Hwf Hne) as Htin.
  destruct (wf_elem HP _ _ _ Hwf Htin) as (ht & Hlt & Ht0 & _).
  unfold carve_state, link_tail. cbn [hdrs].
  destruct (Z.eqb_spec (tail s) NULL) as [E|_]; [unfold NULL in E; lia|].
  rewrite lookup_insert_ne by (pose proof (wf_tail_below _ _ Hwf); congruence).
  rewrite Hlt. destruct (decide (y = tail s)) as [->|Hyt].
  - assert (ht = hy) by congruence. subst ht.
    rewrite lookup_insert_eq. eexists. split; [reflexivity|]. simpl.
    repeat split. right. repeat split.
    eapply dir_seg_last_next; [apply (wf_seg _ _ Hwf)|assumption|].
    rewrite <- (wf_tail _ _ Hwf). assumption.
  - rewrite lookup_insert_ne by congruence. rewrite lookup_insert_ne by assumption.
    exists hy. auto.
Qed.

(** A shrink keeps every remaining header except for the link of the new
    tail. *)
Lemma shrink_lookup s l0 x n y hy :
  wf s (l0 ++ [x]) -> y ∈ l0 -> hdrs s !! y = Some hy ->
  exists hy', hdrs (shrink_state l0 n s) !! y = Some hy' /\
    s_size hy' = s_size hy /\ s_is_free hy' = s_is_free hy /\
    (s_next hy' = s_next hy \/
     (y = List.last l0 NULL /\ s_next hy = x /\ s_next hy' = NULL)).
Proof.
  intros Hwf Hy Hly.
  destruct l0 as [|pred l0 _] using rev_ind; [inversion Hy|].
  destruct (wf_elem HP _ _ pred Hwf) as (hp & Hlp & _).
  { apply elem_of_app. left. apply elem_of_app. right. left. }
  rewrite (shrink_state_snoc _ _ _ _ _ Hlp). cbn [hdrs]. rewrite last_last.
  destruct (decide (y = pred)) as [->|Hne].
  - assert (hp = hy) by congruence. subst hp.
    rewrite lookup_insert_eq. eexists. split; [reflexivity|]. simpl.
    repeat split. right. repeat split.
    pose proof (wf_seg _ _ Hwf) as Hseg. rewrite <- app_assoc in Hseg.
    destruct (dir_seg_split HP _ _ _ _ _ _ Hseg) as (h' & Hl' & _ & _ & _ & _ & Hr & _).
    assert (h' = hy) by congruence. subst h'. simpl in Hr. destruct Hr as (Hr & _).
    exact Hr.
  - rewrite lookup_insert_ne by congruence. exists hy. auto.
Qed.


End Frames.

(** ** Case analysis of [malloc] and [free] *)

Section Cases.
Context `{P : Platform} (HP : platform_ok).

(** On a well-formed directory and a request that does not overflow,
    [malloc] returns, in one of three ways. *)
Lemma malloc_cases fuel n s l :
  wf s l -> 0 < n -> header_size + n < half -> (length l < fuel)%nat ->
  (exists x h, first_fit (hdrs s) n l = x /\ x <> NULL /\ x ∈ l /\
               hdrs s !! x = Some h /\ fits (hdrs s) n x = true /\
               malloc fuel n s = Ok (x + header_size, reuse_state x h s)) \/
  (first_fit (hdrs s) n l = NULL /\ os_grant (brk s) (header_size + n) = false /\
   malloc fuel n s = Ok (NULL, with_trace [Lock; Sbrk (header_size + n); Unlock] s)) \/
  (first_fit (hdrs s) n l = NULL /\ os_grant (brk s) (header_size + n) = true /\
   malloc fuel n s = Ok (brk s + header_size, carve_state n (header_size + n) s)).
Proof.
  intros Hwf Hn Hsm Hfuel.
  pose proof (header_size_pos HP) as Hh.
  pose proof (grow_increment HP n ltac:(lia) Hsm) as Hd.
  destruct (Z.eq_dec (first_fit (hdrs s) n l) NULL) as [Hnone|Hsome].
  - right. destruct (os_grant (brk s) (header_size + n)) eqn:Hg.
    + right. split; [assumption|]. split; [reflexivity|].
      pose proof (grant_in_range HP _ _ Hg) as Hr.
      pose proof (wf_brk _ _ Hwf) as Hb.
      rewrite (malloc_carve HP fuel n s l (header_size + n)); auto; try lia.
      * rewrite wrap_small by lia. reflexivity.
      * rewrite (sbrk_failed_eq HP). lia.
    + left. split; [assumption|]. split; [reflexivity|].
      apply (malloc_fail fuel n s l); auto; lia.
  - left. destruct (first_fit_elem _ _ _ _ eq_refl Hsome) as [Hin Hfit].
    destruct (wf_elem HP _ _ _ Hwf Hin) as (h & Hl & _).
    exists (first_fit (hdrs s) n l), h. repeat split; try assumption.
    apply (malloc_reuse HP fuel n s l); auto; lia.
Qed.

(** On a listed block [free] returns, in one of two ways. *)
Lemma free_cases fuel s l x h :
  wf s l -> x ∈ l -> hdrs s !! x = Some h -> (length l < fuel)%nat ->
  (x + header_size + s_size h = brk s /\
   exists l0, l = l0 ++ [x] /\
     free fuel (x + header_size) s = Ok (shrink_state l0 (s_size h) s)) \/
  (x + header_size + s_size h <> brk s /\
   free fuel (x + header_size) s = Ok (mark_state x h s)).
Proof.
  intros Hwf Hx Hl Hfuel.
  destruct (Z.eq_dec (x + header_size + s_size h) (brk s)) as [E|E].
  - left. split; [assumption|].
    destruct (wf_last_at_break HP _ _ _ _ Hwf Hx Hl E) as (l0 & ->).
    exists l0. split; [reflexivity|]. apply (free_shrink HP); assumption.
  - right. split; [assumption|]. eapply (free_mark HP); eassumption.
Qed.

End Cases.

(** ** release *)

Section Release.
Context `{P : Platform} (HP : platform_ok).

(** [free] on a well-formed directory.  Let [x] be a header of the
    well-formed directory [l] and [p = x + header_size] its payload.
    [free p] terminates.  It takes the
    shrink path exactly when [p + size] is the break that [sbrk 0] reports:
    then [x] is the last header of [l] and is unlinked (the directory becomes
    empty when [head = tail], otherwise the predecessor of [x] becomes the
    tail with a null link), and the break is asked to move down by exactly
    [size + header_size], which it does when the request is granted.
    Otherwise only the [s_is_free] field of [x] is set, and the directory and
    the break stay as they are.  [free NULL] changes nothing. *)
Theorem release_spec fuel s l x h :
  wf s l -> x ∈ l -> hdrs s !! x = Some h -> (length l < fuel)%nat ->
  let p := x + header_size in
  free fuel NULL s = Ok s /\
  (wrap (p + s_size h) = brk s ->
   exists l0 s',
     free fuel p s = Ok s' /\ l = l0 ++ [x] /\ wf s' l0 /\ (x ∉ l0) /\
     (head s = tail s -> l0 = [] /\ head s' = NULL /\ tail s' = NULL /\ hdrs s' = hdrs s) /\
     (head s <> tail s ->
      exists l00 pred hp, l0 = l00 ++ [pred] /\ hdrs s !! pred = Some hp /\
        s_next hp = x /\ head s' = head s /\ tail s' = pred /\
        hdrs s' = <[pred := mkHeader (s_size hp) (s_is_free hp) NULL]> (hdrs s)) /\
     trace s' = trace s ++ [Lock; Sbrk 0; Sbrk (- (s_size h + header_size)); Unlock] /\
     (os_grant (brk s) (- (s_size h + header_size)) = true ->
      brk s' = brk s - (s_size h + header_size)) /\
     (os_grant (brk s) (- (s_size h + header_size)) = false -> brk s' = brk s)) /\
  (wrap (p + s_size h) <> brk s ->
   exists s',
     free fuel p s = Ok s' /\ wf s' l /\
     hdrs s' = <[x := mkHeader (s_size h) true (s_next h)]> (hdrs s) /\
     head s' = head s /\ tail s' = tail s /\ brk s' = brk s /\
     trace s' = trace s ++ [Lock; Sbrk 0; Unlock]).
Proof.
  intros Hwf Hx Hl Hfuel p. subst p.
  destruct (wf_pointers HP _ _ _ _ Hwf Hx Hl) as (_ & _ & Hend & _).
  rewrite Hend.
  split; [reflexivity|]. split.
  - intros Hbrk.
    destruct (wf_last_at_break HP _ _ _ _ Hwf Hx Hl Hbrk) as (l0 & ->).
    exists l0, (shrink_state l0 (s_size h) s).
    pose proof (dir_seg_NoDup HP _ _ _ _ (wf_seg _ _ Hwf)) as Hnd.
    replace (s_size h + header_size) with (header_size + s_size h) by lia.
    split; [apply (free_shrink HP); assumption|].
    split; [reflexivity|].
    split; [apply (wf_shrink HP s l0 x h); assumption|].
    split.
    { apply NoDup_app in Hnd as (_ & Hdis & _). intros Hin. apply (Hdis x Hin). left. }
    pose proof (wf_seg _ _ Hwf) as Hseg. pose proof (wf_tail _ _ Hwf) as Ht.
    rewrite last_last in Ht.
    split; [|split; [|split; [|split]]].
    + intros Heq. destruct l0 as [|y l0].
      * repeat split; reflexivity.
      * exfalso. simpl in Hseg. destruct Hseg as (Hy & _).
        apply NoDup_app in Hnd as (_ & Hdis & _). apply (Hdis x); [|left].
        rewrite <- Ht, <- Heq, Hy. left.
    + intros Hne. destruct l0 as [|pred l00 _] using rev_ind.
      * exfalso. simpl in Hseg. destruct Hseg as (Hy & _). congruence.
      * destruct (wf_elem HP _ _ pred Hwf) as (hp & Hlp & _).
        { apply elem_of_app. left. apply elem_of_app. right. left. }
        exists l00, pred, hp. rewrite (shrink_state_snoc _ _ _ _ _ Hlp). cbn [head tail hdrs].
        repeat split; try assumption.
        rewrite <- app_assoc in Hseg.
        destruct (dir_seg_split HP _ _ _ _ _ _ Hseg) as (h' & Hl' & _ & _ & _ & _ & Hr & _).
        assert (h' = hp) by congruence. subst h'. simpl in Hr. destruct Hr as (Hr & _).
        exact Hr.
    + reflexivity.
    + intros Hg. unfold shrink_state. cbn [brk]. rewrite Hg. lia.
    + intros Hg. unfold shrink_state. cbn [brk]. rewrite Hg. reflexivity.
  - intros Hbrk. exists (mark_state x h s).
    split; [eapply (free_mark HP); eassumption|].
    split; [apply wf_mark; assumption|].
    repeat split.
Qed.

End Release.

(** ** The concrete platform and states are well formed *)

Lemma lp64_ok limit : 0 <= limit < 2 ^ 64 -> @platform_ok (lp64 limit).
Proof.
  intros Hl. constructor.
  - simpl. lia.
  - simpl. lia.
  - unfold half. simpl. lia.
  - intros b d Hg. unfold modulus. simpl in *.
    apply andb_true_iff in Hg as [H1 H2].
    apply Z.leb_le in H1. apply Z.leb_le in H2. lia.
Qed.

Lemma demo_ok : @platform_ok demo.
Proof. apply lp64_ok. lia. Qed.

Lemma heap1_run : @malloc demo 4 64 (initial 4096) = Ok (4120, heap1).
Proof. vm_compute. reflexivity. Qed.

Lemma heap2_run : @malloc demo 4 64 heap1 = Ok (4208, heap2).
Proof. vm_compute. reflexivity. Qed.

Lemma wf_heap1 : @wf demo heap1 [4096].
Proof.
  constructor; [|reflexivity|unfold modulus; simpl; lia].
  eapply (@dir_seg_cons demo); [reflexivity| | | | |reflexivity];
    unfold half; simpl; lia.
Qed.

Lemma wf_heap2 : @wf demo heap2 [4096; 4184].
Proof.
  constructor; [|reflexivity|unfold modulus; simpl; lia].
  eapply (@dir_seg_cons demo); [reflexivity| | | | |]; try (unfold half; simpl; lia).
  eapply (@dir_seg_cons demo); [reflexivity| | | | |reflexivity];
    unfold half; simpl; lia.
Qed.

Lemma release_spec_witness :
  @wf demo heap2 [4096; 4184] /\
  exists s', @free demo 4 4208 heap2 = Ok s' /\ @wf demo s' [4096] /\
             trace s' = trace heap2 ++ [Lock; Sbrk 0; Sbrk (-88); Unlock] /\
             brk s' = 4184.
Proof.
  split; [exact wf_heap2|].
  destruct (@release_spec demo demo_ok 4 heap2 [4096; 4184] 4184 (mkHeader 64 false NULL))
    as (_ & Hshrink & _).
  - exact wf_heap2.
  - right. left.
  - reflexivity.
  - simpl. lia.
  - destruct Hshrink as (l0 & s' & Hfree & Hl & Hwf & _ & _ & _ & Htr & Hbrk & _);
      [reflexivity|].
    exists s'. split; [exact Hfree|].
    assert (l0 = [4096]) as ->.
    { destruct l0 as [|y [|z l0]]; try discriminate; [|destruct l0; discriminate].
      injection Hl as ->. reflexivity. }
    split; [exact Hwf|]. split; [exact Htr|]. apply Hbrk. reflexivity.
Defined.

(** C1 after an allocation whose size wraps.  On LP64, [a = malloc 64] on
    the empty directory with the break at 4096 gives [heap1] with [a = 4120].
    [malloc (2^64 - 24)] then asks [sbrk] for 0 bytes, links a header at the
    break 4184 and returns 4208, so the payload of [a] still ends at the
    break.  [free a] therefore takes the shrink path; its loop unlinks the
    tail, which is the header at 4184 and not the header of [a].  The header
    of [a] stays listed and in use, and the break moves down by
    [64 + header_size] to 4096, below the block of [a]. *)
Theorem release_after_wrapped_allocate :
  exists s1 s2,
    @malloc demo 4 64 (initial 4096) = Ok (4120, heap1) /\
    @malloc demo 4 (2 ^ 64 - 24) heap1 = Ok (4208, s1) /\
    head s1 = 4096 /\ tail s1 = 4184 /\
    hdrs s1 !! 4096 = Some (mkHeader 64 false 4184) /\
    hdrs s1 !! 4184 = Some (mkHeader (2 ^ 64 - 24) false NULL) /\
    @wrap demo (4120 + 64) = brk s1 /\
    @free demo 4 4120 s1 = Ok s2 /\
    head s2 = 4096 /\ tail s2 = 4096 /\
    hdrs s2 !! 4096 = Some (mkHeader 64 false NULL) /\
    brk s2 = 4096 /\ brk s2 < 4096 + @header_size demo + 64 /\
    trace s2 = trace s1 ++ [Lock; Sbrk 0; Sbrk (-88); Unlock].
Proof.
  eexists. eexists.
  split; [exact heap1_run|].
  split; [vm_compute; reflexivity|].
  do 5 (split; [reflexivity|]).
  split; [vm_compute; reflexivity|].
  repeat split.
Qed.

(** ** allocate *)

Section Allocate.
Context `{P : Platform} (HP : platform_ok).

(** When nothing fits, [malloc] reaches the Break Interface whatever the
    non-zero size is, and returns. *)
Lemma malloc_none_total fuel n s l :
  wf s l -> n <> 0 -> (length l < fuel)%nat ->
  first_fit (hdrs s) n l = NULL ->
  exists r s', malloc fuel n s = Ok (r, s') /\
    trace s' = trace s ++ [Lock; Sbrk (to_signed (wrap (header_size + n))); Unlock].
Proof.
  intros Hwf Hn Hfuel Hfit.
  set (d := to_signed (wrap (header_size + n))).
  destruct (Z.eq_dec (brk s) SBRK_FAILED) as [Hb|Hb].
  - unfold malloc. destruct (Z.eqb_spec n 0) as [|_]; [contradiction|].
    rewrite (get_free_block_wf _ _ _ _ Hwf Hfuel), Hfit. simpl. fold d.
    unfold sbrk. cbn [brk pthread_mutex_lock log].
    destruct (d =? 0); [|destruct (os_grant (brk s) d)];
      rewrite ?Hb, Z.eqb_refl; eexists _, _; (split; [reflexivity|]);
      simpl; rewrite <- !app_assoc; reflexivity.
  - destruct (Z.eq_dec d 0) as [Hd|Hd].
    + eexists _, _. split; [apply (malloc_carve HP fuel n s l d); auto|]. reflexivity.
    + destruct (os_grant (brk s) d) eqn:Hg.
      * eexists _, _. split; [apply (malloc_carve HP fuel n s l d); auto|]. reflexivity.
      * eexists _, _. split; [apply (malloc_fail fuel n s l d); auto|]. reflexivity.
Qed.

Lemma fits_true hd n x :
  fits hd n x = true -> exists h, hd !! x = Some h /\ s_is_free h = true /\ n <= s_size h.
Proof.
  unfold fits. destruct (hd !! x) as [h|]; [|discriminate].
  intros Hf. apply andb_true_iff in Hf as [Hfree Hle]. apply Z.leb_le in Hle. eauto.
Qed.





End Allocate.

Section AllocateClaims.
Context `{P : Platform} (HP : platform_ok).


End AllocateClaims.

Lemma heap3_run : @free demo 4 4120 heap2 = Ok heap3.
Proof. vm_compute. reflexivity. Qed.


(** ** Carving new blocks *)

Section Carve.
Context `{P : Platform} (HP : platform_ok).

(** X10.  When [header_size + n] overflows neither the size type nor the signed
    argument of [sbrk], a request that nothing fits asks the break for exactly
    [header_size + n] bytes.  A refusal leaves the directory as it was; a grant
    appends one header [{n, in use, no successor}] at the old break and
    returns the address behind it. *)
Lemma allocate_carve_in_range fuel n s l :
  wf s l -> 0 < n -> header_size + n < half -> (length l < fuel)%nat ->
  (forall y, y ∈ l -> fits (hdrs s) n y = false) ->
  exists r s', malloc fuel n s = Ok (r, s') /\
    trace s' = trace s ++ [Lock; Sbrk (header_size + n); Unlock] /\
    (os_grant (brk s) (header_size + n) = false ->
     r = NULL /\ head s' = head s /\ tail s' = tail s /\ hdrs s' = hdrs s /\
     brk s' = brk s /\ wf s' l) /\
    (os_grant (brk s) (header_size + n) = true ->
     r = brk s + header_size /\ r <> NULL /\ wf s' (l ++ [brk s]) /\
     hdrs s' !! brk s = Some (mkHeader n false NULL) /\
     tail s' = brk s /\ brk s' = brk s + (header_size + n) /\
     (forall y hy, y ∈ l -> hdrs s !! y = Some hy ->
        exists hy', hdrs s' !! y = Some hy' /\ s_size hy' = s_size hy /\
                    s_is_free hy' = s_is_free hy /\
                    (s_next hy' = s_next hy \/
                     (y = tail s /\ s_next hy = NULL /\ s_next hy' = brk s)))).
Proof.
  intros Hwf Hn Hsm Hfuel Hno.
  pose proof (header_size_pos HP) as Hh. pose proof (wf_brk _ _ Hwf) as Hb.
  destruct (malloc_cases HP fuel n s l Hwf Hn Hsm Hfuel)
    as [(x & h & Hfit & Hx & Hin & Hl & Hfx & Hr)|[(_ & Hg & Hr)|(_ & Hg & Hr)]].
  - rewrite (Hno x Hin) in Hfx. discriminate.
  - eexists _, _. split; [exact Hr|]. split; [reflexivity|]. split; [|congruence].
    intros _. do 5 (split; [reflexivity|]). apply wf_with_trace. assumption.
  - eexists _, _. split; [exact Hr|]. split; [reflexivity|]. split; [congruence|].
    intros _. split; [reflexivity|]. split; [unfold NULL; lia|].
    split; [apply (wf_carve HP); assumption|].
    split; [apply (carve_lookup_new HP _ _ _ _ Hwf)|].
    split; [reflexivity|]. split; [reflexivity|].
    intros y hy Hy Hly. apply (carve_lookup_old HP s l); assumption.
Qed.

(** C10.  Let [n] be a size above the maximum of the size type minus
    [header_size].  Then [header_size + n] wraps to
    [total = header_size + n - 2^size_bits], which is smaller than
    [header_size] and than [n]; there is no guard: when nothing fits and the
    break accepts [total], [malloc n] asks for [total] bytes only, records the
    full [n] in the new header and returns a non-null pointer.  More
    generally every non-zero size for which nothing fits is passed on to
    [sbrk]: the test against zero is the only validation. *)
Theorem allocate_size_overflow fuel n s l :
  wf s l -> modulus - header_size <= n < modulus -> (length l < fuel)%nat ->
  (forall y, y ∈ l -> fits (hdrs s) n y = false) ->
  let total := header_size + n - modulus in
  wrap (header_size + n) = total /\ 0 <= total < header_size /\ total < n /\
  (total = 0 \/ os_grant (brk s) total = true ->
   brk s + header_size < modulus ->
   exists s', malloc fuel n s = Ok (brk s + header_size, s') /\
     brk s + header_size <> NULL /\
     hdrs s' !! brk s = Some (mkHeader n false NULL) /\
     tail s' = brk s /\ brk s' = brk s + total /\
     trace s' = trace s ++ [Lock; Sbrk total; Unlock]) /\
  (forall m, m <> 0 -> (forall y, y ∈ l -> fits (hdrs s) m y = false) ->
     exists r s', malloc fuel m s = Ok (r, s') /\
       trace s' = trace s ++ [Lock; Sbrk (to_signed (wrap (header_size + m))); Unlock]).
Proof.
  intros Hwf Hn Hfuel Hno total.
  pose proof (header_size_pos HP) as Hh. pose proof (header_size_small HP) as Hhs.
  pose proof (modulus_half HP) as Hm. pose proof (half_pos HP) as Hhp.
  pose proof (wf_brk _ _ Hwf) as Hb.
  assert (Hnone : forall m, (forall y, y ∈ l -> fits (hdrs s) m y = false) ->
                            first_fit (hdrs s) m l = NULL).
  { intros m Hm0.
    destruct (Z.eq_dec (first_fit (hdrs s) m l) NULL) as [E|E]; [assumption|].
    destruct (first_fit_elem _ _ _ _ eq_refl E) as [Hin Hfit].
    rewrite (Hm0 _ Hin) in Hfit. discriminate. }
  assert (Hw : wrap (header_size + n) = total).
  { unfold total. apply wrap_minus_modulus. lia. }
  split; [assumption|]. split; [unfold total; lia|]. split; [unfold total; lia|].
  split.
  - intros Hg Hroom.
    assert (Hd : total = to_signed (wrap (header_size + n))).
    { rewrite Hw. symmetry. apply to_signed_small. unfold total. lia. }
    exists (carve_state n total s).
    split.
    + rewrite <- (wrap_small (brk s + header_size)) by lia.
      apply (malloc_carve HP fuel n s l total); auto; try lia.
      rewrite (sbrk_failed_eq HP). lia.
    + split; [unfold NULL; lia|].
      split; [apply (carve_lookup_new HP _ _ _ _ Hwf)|]. repeat split.
  - intros m Hm0 Hnom. apply (malloc_none_total HP fuel m s l); auto.
Qed.

End Carve.

Lemma allocate_size_overflow_witness :
  @wf demo (initial 4096) [] /\
  exists s', @malloc demo 1 (2 ^ 64 - 1) (initial 4096) = Ok (4120, s') /\
    hdrs s' !! 4096 = Some (mkHeader (2 ^ 64 - 1) false NULL) /\
    trace s' = [Lock; Sbrk 23; Unlock].
Proof.
  assert (Hwf : @wf demo (initial 4096) []).
  { apply (@wf_initial demo). unfold modulus. simpl. lia. }
  split; [exact Hwf|].
  destruct (@allocate_size_overflow demo demo_ok 1 (2 ^ 64 - 1) (initial 4096) [] Hwf)
    as (_ & _ & _ & Hcarve & _).
  - unfold modulus. simpl. lia.
  - simpl. lia.
  - intros y Hy. inversion Hy.
  - destruct Hcarve as (s' & Hm & _ & Hl & _ & _ & Htr).
    + right. reflexivity.
    + unfold modulus. simpl. lia.
    + exists s'. split; [exact Hm|]. split; [exact Hl|exact Htr].
Defined.

(** C3 at a size where [header_size + size] overflows: on LP64 with the break
    at 4096 and an empty directory, [malloc (2^64 - 1)] asks [sbrk] for 23
    bytes, not for [header_size + size], and still hands out a block recorded
    as [2^64 - 1] bytes long. *)
Theorem allocate_request_wraps :
  @malloc demo 1 (2 ^ 64 - 1) (initial 4096) =
    Ok (4120, mkState 4096 4096 (<[4096 := mkHeader (2 ^ 64 - 1) false NULL]> ∅)
                      (fun _ => 0) 4119 [Lock; Sbrk 23; Unlock]) /\
  23 <> @header_size demo + (2 ^ 64 - 1).
Proof. split; [vm_compute; reflexivity|simpl; lia]. Qed.

(** ** Degenerate requests, zero_allocate and resize *)

Section Wrappers.
Context `{P : Platform}.

(** C8.  [malloc 0] returns NULL, and [calloc] returns NULL as soon as one
    of its arguments is zero, whatever the other one is.  The state that
    comes back is the state that went in: no [Lock] and no [Sbrk] event is
    appended to the trace, and directory, headers and break are untouched. *)
Theorem zero_requests_rejected fuel k s :
  malloc fuel 0 s = Ok (NULL, s) /\
  calloc fuel 0 k s = Ok (NULL, s) /\
  calloc fuel k 0 s = Ok (NULL, s).
Proof.
  split; [reflexivity|]. split; [reflexivity|].
  unfold calloc. rewrite orb_true_r. reflexivity.
Qed.

(** C6.  [realloc p 0] is [malloc 0] for every [p]: it returns NULL and
    leaves the state as it was, so the block of a non-null [p] is neither
    marked free nor unlinked. *)
Theorem resize_to_zero fuel p s :
  realloc fuel p 0 s = malloc fuel 0 s /\
  realloc fuel p 0 s = Ok (NULL, s).
Proof.
  unfold realloc. rewrite orb_true_r. split; reflexivity.
Qed.

(** C5, amended.  For a non-null [p] whose header records the size [n] and
    for every non-zero [m <= n], [realloc p m] returns [p] and leaves the
    whole state unchanged: no copy, no allocation, no event. *)
Theorem resize_within_size fuel p m s h :
  p <> NULL -> hdrs s !! wrap (p - header_size) = Some h ->
  m <> 0 -> m <= s_size h ->
  realloc fuel p m s = Ok (p, s).
Proof.
  intros Hp Hl Hm Hle. unfold realloc.
  destruct (Z.eqb_spec p NULL) as [|_]; [contradiction|].
  destruct (Z.eqb_spec m 0) as [|_]; [contradiction|]. simpl.
  rewrite (load_Some _ _ _ Hl). simpl.
  destruct (Z.leb_spec m (s_size h)) as [_|]; [reflexivity|lia].
Qed.

End Wrappers.

(** With [m = 0] the guard in front of the size comparison sends the call
    to [malloc 0]. *)
Lemma resize_within_counterexample : ~ @resize_within_returns_block demo.
Proof.
  intros H.
  specialize (H 4%nat 4120 0 heap1 (mkHeader 64 false NULL)).
  assert (Hr : @realloc demo 4 4120 0 heap1 = Ok (4120, heap1)).
  { apply H; [discriminate|reflexivity|simpl; lia]. }
  vm_compute in Hr. discriminate Hr.
Qed.

Lemma resize_within_size_witness :
  @realloc demo 4 4120 10 heap1 = Ok (4120, heap1).
Proof.
  apply (@resize_within_size demo 4 4120 10 heap1 (mkHeader 64 false NULL)).
  - discriminate.
  - reflexivity.
  - discriminate.
  - simpl. lia.
Defined.

Section ZeroAllocate.
Context `{P : Platform} (HP : platform_ok).

(** The guard of [calloc] lets a product through only if it fits the size
    type. *)
Lemma calloc_cases fuel num nsize s :
  0 < num < modulus -> 0 < nsize < modulus ->
  (modulus <= num * nsize /\ calloc fuel num nsize s = Ok (NULL, s)) \/
  (num * nsize < modulus /\
   calloc fuel num nsize s =
     (r ← malloc fuel (num * nsize) s;
      if fst r =? NULL then Ok (NULL, snd r)
      else Ok (fst r, memset (fst r) 0 (num * nsize) (snd r)))).
Proof.
  intros Hnum Hnsize.
  pose proof (modulus_half HP) as Hm. pose proof (half_pos HP) as Hhp.
  assert (Hdiv : udiv (wrap (num * nsize)) num = Ok (wrap (num * nsize) / num)).
  { unfold udiv. destruct (Z.eqb_spec num 0); [lia|reflexivity]. }
  assert (Hz : (num =? 0) || (nsize =? 0) = false).
  { destruct (Z.eqb_spec num 0); [lia|]. destruct (Z.eqb_spec nsize 0); [lia|]. reflexivity. }
  destruct (Z_lt_le_dec (num * nsize) modulus) as [Hfit|Hov].
  - right. split; [assumption|].
    assert (Hw : wrap (num * nsize) = num * nsize) by (apply wrap_small; nia).
    assert (Hq : num * nsize / num = nsize).
    { rewrite Z.mul_comm. apply Z.div_mul. lia. }
    unfold calloc. rewrite Hz, Hdiv. simpl. rewrite Hw, Hq, Z.eqb_refl. simpl.
    destruct (malloc fuel (num * nsize) s) as [[b s']| |]; reflexivity.
  - left. split; [assumption|].
    unfold calloc. rewrite Hz, Hdiv. simpl.
    pose proof (wrap_range HP (num * nsize)) as Hw.
    assert (wrap (num * nsize) / num < nsize).
    { apply Z.div_lt_upper_bound; lia. }
    destruct (Z.eqb_spec nsize (wrap (num * nsize) / num)); [lia|reflexivity].
Qed.

End ZeroAllocate.

(** C7 at a product that fits the size type while [header_size + num * nsize]
    does not.  On LP64, with the empty directory and the break at 4096,
    [calloc (2^64 - 1) 1] passes its two tests: no argument is zero and the
    quotient of the guard is [nsize].  Its call [malloc (2^64 - 1)] asks
    [sbrk] for 23 bytes, records [2^64 - 1] in the header at 4096 and
    returns 4120 with the break at 4119, so [calloc] goes on to fill
    [2^64 - 1] bytes from 4120.  These bytes start above the break and do
    not fit below the end of the address space; with addresses taken modulo
    [2^64] they include the header of the block at 4096, its last byte
    excepted. *)
Theorem zero_allocate_fill_overruns :
  let num := 2 ^ 64 - 1 in
  let nsize := 1 in
  let size := @wrap demo (num * nsize) in
  (num =? 0) || (nsize =? 0) = false /\
  size = 2 ^ 64 - 1 /\ udiv size num = Ok nsize /\
  exists s1,
    @malloc demo 4 size (initial 4096) = Ok (4120, s1) /\
    hdrs s1 !! 4096 = Some (mkHeader size false NULL) /\
    trace s1 = [Lock; Sbrk 23; Unlock] /\ brk s1 = 4119 /\
    brk s1 < 4120 /\ @modulus demo < 4120 + size /\
    forall a, 4096 <= a < 4119 -> @wrap demo (a - 4120) < size.
Proof.
  cbv zeta.
  split; [reflexivity|]. split; [reflexivity|]. split; [reflexivity|].
  eexists. split; [vm_compute; reflexivity|].
  do 3 (split; [reflexivity|]).
  split; [reflexivity|]. split; [reflexivity|].
  change (@wrap demo ((2 ^ 64 - 1) * 1)) with (2 ^ 64 - 1).
  intros a Ha. unfold wrap, modulus. cbn [size_bits demo lp64].
  rewrite <- (Z.mod_add (a - 4120) 1 (2 ^ 64)) by lia.
  rewrite Z.mod_small; lia.
Qed.

(** ** resize to a larger size *)

Section Resize.
Context `{P : Platform} (HP : platform_ok).

Lemma realloc_grow_unfold fuel s l x h n :
  wf s l -> x ∈ l -> hdrs s !! x = Some h -> s_size h < n ->
  realloc fuel (x + header_size) n s =
    (r ← malloc fuel n s;
     if negb (fst r =? NULL) then
       h' ← load x (snd r);
       s3 ← free fuel (x + header_size)
              (memcpy (fst r) (x + header_size) (s_size h') (snd r));
       Ok (fst r, s3)
     else Ok (fst r, snd r)).
Proof.
  intros Hwf Hx Hl Hlt.
  destruct (wf_pointers HP _ _ _ _ Hwf Hx Hl) as (_ & Hhdr & _ & Hnn).
  destruct (wf_elem HP _ _ _ Hwf Hx) as (h' & Hl' & _ & Hs & _).
  assert (h' = h) by congruence. subst h'.
  unfold realloc.
  destruct (Z.eqb_spec (x + header_size) NULL) as [|_]; [contradiction|].
  destruct (Z.eqb_spec n 0) as [|_]; [lia|]. simpl.
  rewrite Hhdr, (load_Some _ _ _ Hl). simpl.
  destruct (Z.leb_spec n (s_size h)); [lia|].
  destruct (malloc fuel n s) as [[r s1]| |]; reflexivity.
Qed.

(** When [header_size + n] does not overflow, growing an allocated block
    does what the specification says: the bytes are carried over, the old
    block is released, and a refusal of the break leaves everything as it
    was. *)
Lemma resize_grow_in_range fuel s l x h n :
  wf s l -> x ∈ l -> hdrs s !! x = Some h -> s_is_free h = false ->
  s_size h < n -> header_size + n < half -> (length l + 1 < fuel)%nat ->
  let p := x + header_size in
  exists r s1, malloc fuel n s = Ok (r, s1) /\
    (r = NULL ->
     realloc fuel p n s = Ok (NULL, s1) /\ hdrs s1 = hdrs s /\ head s1 = head s /\
     tail s1 = tail s /\ mem s1 = mem s /\ brk s1 = brk s /\ wf s1 l) /\
    (r <> NULL ->
     exists s3 l3, realloc fuel p n s = Ok (r, s3) /\ wf s3 l3 /\
       free fuel p (memcpy r p (s_size h) s1) = Ok s3 /\
       (forall i, 0 <= i < s_size h -> mem s3 (r + i) = mem s (p + i)) /\
       (x ∉ l3 \/ exists h3, hdrs s3 !! x = Some h3 /\ s_is_free h3 = true) /\
       (exists y h3, r = y + header_size /\ y ∈ l3 /\ hdrs s3 !! y = Some h3 /\
                     s_is_free h3 = false /\ n <= s_size h3)).
Proof.
  intros Hwf Hx Hl Hfree Hlt Hsm Hfuel p. subst p.
  pose proof (header_size_pos HP) as Hh.
  destruct (wf_elem HP _ _ _ Hwf Hx) as (h' & Hl' & Hx0 & Hs & _ & Hxe).
  assert (h' = h) by congruence. subst h'.
  assert (Hn0 : 0 < n) by lia.
  assert (Hcopy : forall r s1 i, 0 <= i < s_size h -> mem s1 = mem s ->
            mem (memcpy r (x + header_size) (s_size h) s1) (r + i) =
            mem s (x + header_size + i)).
  { intros r s1 i Hi Hmem. simpl.
    destruct (Z.leb_spec r (r + i)); [|lia].
    destruct (Z.ltb_spec (r + i) (r + s_size h)); [|lia].
    simpl. rewrite Hmem. f_equal. lia. }
  rewrite (realloc_grow_unfold fuel s l x h n Hwf Hx Hl Hlt).
  destruct (malloc_cases HP fuel n s l Hwf ltac:(lia) Hsm ltac:(lia))
    as [(y & hy & Hfit & Hy & Hin & Hly & Hfy & Hr)|[(_ & Hg & Hr)|(_ & Hg & Hr)]];
    rewrite Hr; eexists _, _; (split; [reflexivity|]); cbn [mbind res_bind fst snd].
  - (* a free block is reused *)
    destruct (fits_true _ _ _ Hfy) as (hy' & Hly' & Hyf & Hyle).
    assert (hy' = hy) by congruence. subst hy'.
    assert (Hyx : y <> x) by (intros ->; congruence).
    destruct (wf_elem HP _ _ _ Hwf Hin) as (_ & _ & Hy0 & _).
    split; [intros E; unfold NULL in E; lia|]. intros _.
    destruct (Z.eqb_spec (y + header_size) NULL) as [E|_]; [unfold NULL in E; lia|].
    cbn [negb].
    assert (Hl1 : hdrs (reuse_state y hy s) !! x = Some h).
    { unfold reuse_state. cbn [hdrs]. rewrite lookup_insert_ne by assumption. assumption. }
    rewrite (load_Some _ _ _ Hl1). cbn [mbind res_bind].
    set (s2 := memcpy (y + header_size) (x + header_size) (s_size h) (reuse_state y hy s)).
    assert (Hwf2 : wf s2 l) by (apply wf_set_mem, wf_reuse; assumption).
    assert (Hl2 : hdrs s2 !! x = Some h) by exact Hl1.
    assert (Hly2 : hdrs s2 !! y = Some (mkHeader (s_size hy) false (s_next hy))).
    { unfold s2, reuse_state. cbn [hdrs memcpy set_mem]. apply lookup_insert_eq. }
    destruct (free_cases HP fuel s2 l x h Hwf2 Hx Hl2 ltac:(lia))
      as [(Hend & l0 & Hl0 & Hf)|(Hne & Hf)]; rewrite Hf; cbn [mbind res_bind].
    + exists (shrink_state l0 (s_size h) s2), l0. subst l.
      pose proof (dir_seg_NoDup HP _ _ _ _ (wf_seg _ _ Hwf)) as Hnd.
      apply NoDup_app in Hnd as (_ & Hdis & _).
      assert (Hy0in : y ∈ l0).
      { apply elem_of_app in Hin as [Hin|Hin]; [assumption|].
        apply list_elem_of_singleton in Hin. congruence. }
      split; [reflexivity|]. split; [apply (wf_shrink HP s2 l0 x h); assumption|].
      split; [reflexivity|]. split; [intros i Hi; apply (Hcopy _ _ i Hi); reflexivity|].
      split; [left; intros Hin0; apply (Hdis x Hin0); left|].
      destruct (shrink_lookup HP s2 l0 x (s_size h) y _ Hwf2 Hy0in Hly2)
        as (h3 & Hl3 & Hs3 & Hf3 & _).
      exists y, h3. simpl in Hs3, Hf3. rewrite Hs3, Hf3. auto.
    + exists (mark_state x h s2), l.
      split; [reflexivity|]. split; [apply wf_mark; assumption|].
      split; [reflexivity|]. split; [intros i Hi; apply (Hcopy _ _ i Hi); reflexivity|].
      split.
      * right. eexists. unfold mark_state. cbn [hdrs]. rewrite lookup_insert_eq.
        split; reflexivity.
      * exists y. eexists. split; [reflexivity|]. split; [assumption|].
        unfold mark_state. cbn [hdrs]. rewrite lookup_insert_ne by congruence.
        split; [exact Hly2|]. split; [reflexivity|assumption].
  - (* the break refuses *)
    split; [|congruence]. intros _. split; [reflexivity|].
    do 5 (split; [reflexivity|]). apply wf_with_trace. assumption.
  - (* a new block is carved *)
    pose proof (wf_brk _ _ Hwf) as Hb.
    split; [intros E; unfold NULL in E; lia|]. intros _.
    destruct (Z.eqb_spec (brk s + header_size) NULL) as [E|_]; [unfold NULL in E; lia|].
    cbn [negb].
    destruct (carve_lookup_old HP s l n (header_size + n) x h Hwf Hx Hl)
      as (h1 & Hl1 & Hs1 & Hf1 & _).
    rewrite (load_Some _ _ _ Hl1). cbn [mbind res_bind]. rewrite Hs1.
    set (s2 := memcpy (brk s + header_size) (x + header_size) (s_size h)
                      (carve_state n (header_size + n) s)).
    assert (Hwf2 : wf s2 (l ++ [brk s])) by (apply wf_set_mem, (wf_carve HP); assumption).
    assert (Hl2 : hdrs s2 !! x = Some h1) by exact Hl1.
    assert (Hx2 : x ∈ l ++ [brk s]) by (apply elem_of_app; left; assumption).
    assert (Hb2 : brk s ∈ l ++ [brk s]) by (apply elem_of_app; right; left).
    pose proof (carve_lookup_new HP s l n (header_size + n) Hwf) as Hnew.
    destruct (free_cases HP fuel s2 _ x h1 Hwf2 Hx2 Hl2)
      as [(Hend & _)|(Hne & Hf)].
    { rewrite length_app. simpl. lia. }
    { exfalso. unfold s2 in Hend. simpl in Hend. lia. }
    rewrite Hf. cbn [mbind res_bind].
    exists (mark_state x h1 s2), (l ++ [brk s]).
    split; [reflexivity|]. split; [apply wf_mark; assumption|].
    split; [reflexivity|].
    split; [intros i Hi; apply (Hcopy _ _ i Hi); reflexivity|].
    split.
    + right. eexists. unfold mark_state. cbn [hdrs]. rewrite lookup_insert_eq.
      split; reflexivity.
    + exists (brk s). eexists. split; [reflexivity|]. split; [assumption|].
      unfold mark_state. cbn [hdrs]. rewrite lookup_insert_ne by lia.
      split; [exact Hnew|]. simpl. split; [reflexivity|lia].
Qed.

End Resize.

(** C4 at a size where [header_size + new_size] overflows.  On LP64, with
    the single 64-byte block of [heap1] at the break, [realloc] to
    [2^64 - 24] bytes makes [malloc] ask [sbrk] for 0 bytes and link a header
    at the break; [free] then finds the old block at the break, unlinks the
    tail, which is the new header, and moves the break down over the old
    block.  A non-null pointer is returned, the old block is still listed
    and in use, the block returned is not listed, and the break lies below
    both. *)
Theorem resize_overflow_keeps_old_block :
  exists s', @realloc demo 4 4120 (2 ^ 64 - 24) heap1 = Ok (4208, s') /\
    head s' = 4096 /\ tail s' = 4096 /\
    hdrs s' !! 4096 = Some (mkHeader 64 false NULL) /\
    brk s' = 4096 /\ brk s' < 4096 + @header_size demo + 64 /\
    trace s' = trace heap1 ++ [Lock; Sbrk 0; Unlock; Lock; Sbrk 0; Sbrk (-88); Unlock].
Proof.
  eexists. split; [vm_compute; reflexivity|].
  repeat split.
Qed.

(** Allocating a second block links it behind the first one. *)
Lemma only_is_free_mutated_counterexample : ~ @only_is_free_mutated demo.
Proof.
  intros H.
  destruct (H 4%nat (Allocate 64) heap1 [4096] heap2 [4096; 4184] 4096
              (mkHeader 64 false NULL) (mkHeader 64 false 4184)) as (_ & Hnext).
  - exact wf_heap1.
  - split; [lia|]. unfold half. simpl. lia.
  - unfold step. rewrite heap2_run. reflexivity.
  - exact wf_heap2.
  - left.
  - left.
  - reflexivity.
  - reflexivity.
  - discriminate Hnext.
Qed.

Section Sequences.
Context `{P : Platform} (HP : platform_ok).

Lemma dir_seg_unique hd lim a l l' :
  dir_seg hd lim a l -> dir_seg hd lim a l' -> l = l'.
Proof.
  revert a l'. induction l as [|x l IH]; intros a l' H1 H2.
  - simpl in H1. subst a. destruct l' as [|y l']; [reflexivity|].
    simpl in H2. destruct H2 as (E & Hy & _). unfold NULL in E. lia.
  - simpl in H1. destruct H1 as (-> & Hx & h & Hl & _ & _ & _ & Hr).
    destruct l' as [|y l'].
    + simpl in H2. unfold NULL in H2. lia.
    + simpl in H2. destruct H2 as (<- & _ & h' & Hl' & _ & _ & _ & Hr').
      assert (h' = h) by congruence. subst h'. f_equal. eapply IH; eassumption.
Qed.

Lemma wf_unique s l l' : wf s l -> wf s l' -> l = l'.
Proof. intros [H1 _ _] [H2 _ _]. eapply dir_seg_unique; eassumption. Qed.

(** [malloc] with a size in range: it returns, keeps well-formedness, keeps
    or extends the directory, and on listed headers changes at most
    [s_is_free], and [s_next] of the old tail when it appends. *)
Lemma malloc_step fuel n s l :
  wf s l -> size_ok n -> (length l < fuel)%nat ->
  exists r s' l', malloc fuel n s = Ok (r, s') /\ wf s' l' /\
    (l' = l \/ l' = l ++ [brk s]) /\
    (forall x h, x ∈ l -> hdrs s !! x = Some h ->
       exists h', hdrs s' !! x = Some h' /\ s_size h' = s_size h /\
         (s_next h' = s_next h \/
          (l' = l ++ [brk s] /\ x = tail s /\ s_next h = NULL /\ s_next h' = brk s))).
Proof.
  intros Hwf [Hn0 Hsm] Hfuel.
  destruct (Z.eq_dec n 0) as [->|Hn].
  { exists NULL, s, l. split; [reflexivity|]. split; [assumption|].
    split; [left; reflexivity|]. intros x h _ Hl. exists h. auto. }
  destruct (malloc_cases HP fuel n s l Hwf ltac:(lia) Hsm Hfuel)
    as [(y & hy & Hfit & Hy & Hin & Hly & Hfy & Hr)|[(_ & Hg & Hr)|(_ & Hg & Hr)]];
    rewrite Hr; eexists _, _.
  - exists l. split; [reflexivity|]. split; [apply wf_reuse; assumption|].
    split; [left; reflexivity|]. intros x h Hx Hl.
    unfold reuse_state. cbn [hdrs]. destruct (decide (x = y)) as [->|Hne].
    + assert (hy = h) by congruence. subst hy.
      rewrite lookup_insert_eq. eexists. split; [reflexivity|]. simpl. auto.
    + rewrite lookup_insert_ne by congruence. exists h. auto.
  - exists l. split; [reflexivity|]. split; [apply wf_with_trace; assumption|].
    split; [left; reflexivity|]. intros x h Hx Hl. exists h. auto.
  - exists (l ++ [brk s]). split; [reflexivity|].
    split; [apply (wf_carve HP); (assumption || lia)|].
    split; [right; reflexivity|]. intros x h Hx Hl.
    destruct (carve_lookup_old HP s l n (header_size + n) x h Hwf Hx Hl)
      as (h' & Hl' & Hs & _ & Hnext).
    exists h'. split; [assumption|]. split; [assumption|].
    destruct Hnext as [E|(E1 & E2 & E3)]; [left; assumption|right; auto].
Qed.

(** [free] of a listed block: it returns, keeps well-formedness, keeps the
    directory or drops its last header, and on the remaining headers changes
    at most [s_is_free], and [s_next] of the new tail when it unlinks. *)
Lemma free_step fuel s l x0 :
  wf s l -> x0 ∈ l -> (length l < fuel)%nat ->
  exists s' l', free fuel (x0 + header_size) s = Ok s' /\ wf s' l' /\
    (l' = l \/ l = l' ++ [x0]) /\
    (forall x h, x ∈ l' -> hdrs s !! x = Some h ->
       exists h', hdrs s' !! x = Some h' /\ s_size h' = s_size h /\
         (s_next h' = s_next h \/
          (l = l' ++ [x0] /\ x = tail s' /\ s_next h = x0 /\ s_next h' = NULL))).
Proof.
  intros Hwf Hx0 Hfuel.
  destruct (wf_elem HP _ _ _ Hwf Hx0) as (h0 & Hl0 & _).
  destruct (free_cases HP fuel s l x0 h0 Hwf Hx0 Hl0 Hfuel)
    as [(Hend & l0 & -> & Hf)|(Hne & Hf)]; rewrite Hf; eexists.
  - exists l0. split; [reflexivity|].
    split; [apply (wf_shrink HP s l0 x0 h0); assumption|].
    split; [right; reflexivity|]. intros x h Hx Hl.
    destruct (shrink_lookup HP s l0 x0 (s_size h0) x h Hwf Hx Hl)
      as (h' & Hl' & Hs & _ & Hnext).
    exists h'. split; [assumption|]. split; [assumption|].
    destruct Hnext as [E|(E1 & E2 & E3)]; [left; assumption|right].
    split; [reflexivity|]. split; [|auto]. rewrite E1. reflexivity.
  - exists l. split; [reflexivity|]. split; [apply wf_mark; assumption|].
    split; [left; reflexivity|]. intros x h Hx Hl.
    unfold mark_state. cbn [hdrs]. destruct (decide (x = x0)) as [->|Hxne].
    + assert (h0 = h) by congruence. subst h0.
      rewrite lookup_insert_eq. eexists. split; [reflexivity|]. simpl. auto.
    + rewrite lookup_insert_ne by congruence. exists h. auto.
Qed.

End Sequences.

Section SequenceSteps.
Context `{P : Platform} (HP : platform_ok).

(** Every admissible operation returns, keeps the directory well formed and
    keeps the [s_size] of every header that stays listed. *)
Lemma op_step fuel o s l :
  wf s l -> op_ok l o -> (length l + 1 < fuel)%nat ->
  exists s' l', step fuel o s = Ok s' /\ wf s' l' /\
    (length l' <= length l + 1)%nat /\
    (forall x h, x ∈ l -> x ∈ l' -> hdrs s !! x = Some h ->
       exists h', hdrs s' !! x = Some h' /\ s_size h' = s_size h).
Proof.
  intros Hwf Hok Hfuel.
  assert (Hsame : exists s' l', Ok s = Ok s' /\ wf s' l' /\
             (length l' <= length l + 1)%nat /\
             (forall x h, x ∈ l -> x ∈ l' -> hdrs s !! x = Some h ->
                exists h', hdrs s' !! x = Some h' /\ s_size h' = s_size h)).
  { exists s, l. split; [reflexivity|]. split; [assumption|]. split; [lia|]. eauto. }
  assert (Hmal : forall n, size_ok n ->
            exists r s' l', malloc fuel n s = Ok (r, s') /\ wf s' l' /\
              (length l' <= length l + 1)%nat /\ (forall x, x ∈ l -> x ∈ l') /\
              (forall x h, x ∈ l -> hdrs s !! x = Some h ->
                 exists h', hdrs s' !! x = Some h' /\ s_size h' = s_size h)).
  { intros n Hn.
    destruct (malloc_step HP fuel n s l Hwf Hn ltac:(lia))
      as (r & s' & l' & Hr & Hwf' & Hl' & Hfr).
    exists r, s', l'. split; [assumption|]. split; [assumption|].
    split; [destruct Hl' as [->| ->]; rewrite ?length_app; simpl; lia|].
    split; [intros x Hx; destruct Hl' as [->| ->]; [assumption|apply elem_of_app; auto]|].
    intros x h Hx Hl. destruct (Hfr x h Hx Hl) as (h' & Hlh & Hs & _). eauto. }
  destruct o as [n|num nsize|p n|p]; simpl in Hok; unfold step.
  - destruct (Hmal n Hok) as (r & s' & l' & Hr & Hwf' & Hlen & _ & Hfr).
    rewrite Hr. exists s', l'. split; [reflexivity|]. split; [assumption|].
    split; [assumption|]. intros x h Hx _ Hl. eauto.
  - destruct Hok as (Hnum & Hnsize & Hprod).
    destruct (Z.eq_dec num 0) as [->|Hn0]; [exact Hsame|].
    destruct (Z.eq_dec nsize 0) as [->|Hs0].
    { unfold calloc. rewrite orb_true_r. exact Hsame. }
    destruct (calloc_cases HP fuel num nsize s ltac:(lia) ltac:(lia)) as [(_ & Hc)|(Hfit & Hc)];
      rewrite Hc; [exact Hsame|].
    destruct (Hmal _ (Hprod Hfit)) as (r & s' & l' & Hr & Hwf' & Hlen & _ & Hfr).
    rewrite Hr. cbn [mbind res_bind fst snd].
    destruct (r =? NULL); cbn [mbind res_bind snd].
    + exists s', l'. split; [reflexivity|]. split; [assumption|].
      split; [assumption|]. intros x h Hx _ Hl. eauto.
    + eexists _, l'. split; [reflexivity|]. split; [apply wf_set_mem; assumption|].
      split; [assumption|]. intros x h Hx _ Hl. apply (Hfr x h Hx Hl).
  - destruct Hok as (Hp & Hn).
    assert (Hviamalloc : (p =? NULL) || (n =? 0) = true ->
              exists s' l', (r ← realloc fuel p n s; Ok (snd r)) = Ok s' /\ wf s' l' /\
                (length l' <= length l + 1)%nat /\
                (forall x h, x ∈ l -> x ∈ l' -> hdrs s !! x = Some h ->
                   exists h', hdrs s' !! x = Some h' /\ s_size h' = s_size h)).
    { intros Hg. unfold realloc. rewrite Hg.
      destruct (Hmal n Hn) as (r & s' & l' & Hr & Hwf' & Hlen & _ & Hfr).
      rewrite Hr. exists s', l'. split; [reflexivity|]. split; [assumption|].
      split; [assumption|]. intros x h Hx _ Hl. eauto. }
    destruct Hp as [->|(x0 & Hx0 & ->)]; [apply Hviamalloc; reflexivity|].
    destruct (Z.eq_dec n 0) as [->|Hn0]; [apply Hviamalloc; apply orb_true_r|].
    destruct (wf_elem HP _ _ _ Hwf Hx0) as (h0 & Hl0 & _).
    destruct (wf_pointers HP _ _ _ _ Hwf Hx0 Hl0) as (_ & Hhdr & _ & Hnn).
    destruct (Z_le_gt_dec n (s_size h0)) as [Hle|Hgt].
    { unfold realloc.
      destruct (Z.eqb_spec (x0 + header_size) NULL) as [|_]; [contradiction|].
      destruct (Z.eqb_spec n 0) as [|_]; [contradiction|]. simpl.
      rewrite Hhdr, (load_Some _ _ _ Hl0). simpl.
      destruct (Z.leb_spec n (s_size h0)); [|lia]. exact Hsame. }
    rewrite (realloc_grow_unfold HP fuel s l x0 h0 n Hwf Hx0 Hl0 ltac:(lia)).
    destruct (Hmal n Hn) as (r & s1 & l1 & Hr & Hwf1 & Hlen1 & Hsub & Hfr1).
    rewrite Hr. cbn [mbind res_bind fst snd].
    destruct (r =? NULL); cbn [negb mbind res_bind snd].
    { exists s1, l1. split; [reflexivity|]. split; [assumption|].
      split; [assumption|]. intros x h Hx _ Hl. eauto. }
    destruct (Hfr1 x0 h0 Hx0 Hl0) as (h1 & Hl1 & Hs1).
    rewrite (load_Some _ _ _ Hl1). cbn [mbind res_bind].
    set (s2 := memcpy r (x0 + header_size) (s_size h1) s1).
    assert (Hwf2 : wf s2 l1) by (apply wf_set_mem; assumption).
    destruct (free_step HP fuel s2 l1 x0 Hwf2 (Hsub _ Hx0) ltac:(lia))
      as (s3 & l3 & Hf & Hwf3 & Hl3 & Hfr3).
    rewrite Hf. cbn [mbind res_bind snd].
    exists s3, l3. split; [reflexivity|]. split; [assumption|].
    split.
    { destruct Hl3 as [->|E]; [assumption|]. rewrite E, length_app in Hlen1. simpl in Hlen1. lia. }
    intros x h Hx Hx3 Hl.
    destruct (Hfr1 x h Hx Hl) as (h' & Hl' & Hs').
    destruct (Hfr3 x h' Hx3 Hl') as (h3 & Hlh3 & Hs3 & _).
    exists h3. split; [assumption|]. congruence.
  - destruct Hok as [->|(x0 & Hx0 & ->)]; [exact Hsame|].
    destruct (free_step HP fuel s l x0 Hwf Hx0 ltac:(lia))
      as (s' & l' & Hf & Hwf' & Hl' & Hfr).
    rewrite Hf. exists s', l'. split; [reflexivity|]. split; [assumption|].
    split.
    { destruct Hl' as [->|E]; [lia|]. rewrite E, length_app. simpl. lia. }
    intros x h _ Hx' Hl. destruct (Hfr x h Hx' Hl) as (h' & Hlh & Hs & _). eauto.
Qed.

(** Along any sequence of admissible operations, a header that stays listed
    keeps its [s_size]. *)
Lemma stays_size fuel x s s' :
  stays fuel x s s' ->
  forall h, hdrs s !! x = Some h ->
  exists h', hdrs s' !! x = Some h' /\ s_size h' = s_size h.
Proof.
  induction 1 as [s l Hwf Hx|s l o s1 s2 Hwf Hx Hok Hfuel Hstep Hrest IH]; intros h Hl.
  - eauto.
  - destruct (op_step fuel o s l Hwf Hok Hfuel) as (s1' & l1 & Hstep' & Hwf1 & _ & Hfr).
    assert (s1' = s1) by congruence. subst s1'.
    assert (Hx1 : x ∈ l1).
    { inversion Hrest as [? l1' Hwf1' Hx1'|? l1' ? ? ? Hwf1' Hx1']; subst;
        rewrite (wf_unique _ _ _ Hwf1 Hwf1'); assumption. }
    destruct (Hfr x h Hx Hx1 Hl) as (h1 & Hl1 & Hs1).
    destruct (IH h1 Hl1) as (h2 & Hl2 & Hs2).
    exists h2. split; [assumption|]. congruence.
Qed.

End SequenceSteps.

Section FrameClaim.
Context `{P : Platform} (HP : platform_ok).

(** C9, amended.  For requests whose size computations do not overflow and
    pointers to listed blocks: [malloc] and [free] return and keep the
    directory well formed; on a header that stays listed they never change
    [s_size]; they change [s_next] in two cases only: [malloc] appends a new
    header behind the old tail (null becomes the new header), and the shrink
    path of [free] unlinks the successor of the new tail (the successor
    becomes null).  Every admissible operation returns and keeps the
    directory well formed, and along every sequence of allocate,
    zero_allocate, resize and release a header that stays listed keeps its
    [s_size]. *)
Theorem header_fields_frame fuel :
  (forall n s l, wf s l -> size_ok n -> (length l < fuel)%nat ->
     exists r s' l', malloc fuel n s = Ok (r, s') /\ wf s' l' /\
       (l' = l \/ l' = l ++ [brk s]) /\
       (forall x h, x ∈ l -> hdrs s !! x = Some h ->
          exists h', hdrs s' !! x = Some h' /\ s_size h' = s_size h /\
            (s_next h' = s_next h \/
             (l' = l ++ [brk s] /\ x = tail s /\ s_next h = NULL /\ s_next h' = brk s)))) /\
  (forall s l x0, wf s l -> x0 ∈ l -> (length l < fuel)%nat ->
     exists s' l', free fuel (x0 + header_size) s = Ok s' /\ wf s' l' /\
       (l' = l \/ l = l' ++ [x0]) /\
       (forall x h, x ∈ l' -> hdrs s !! x = Some h ->
          exists h', hdrs s' !! x = Some h' /\ s_size h' = s_size h /\
            (s_next h' = s_next h \/
             (l = l' ++ [x0] /\ x = tail s' /\ s_next h = x0 /\ s_next h' = NULL)))) /\
  (forall o s l, wf s l -> op_ok l o -> (length l + 1 < fuel)%nat ->
     exists s' l', step fuel o s = Ok s' /\ wf s' l') /\
  (forall x s s' h, stays fuel x s s' -> hdrs s !! x = Some h ->
     exists h', hdrs s' !! x = Some h' /\ s_size h' = s_size h).
Proof.
  split; [|split; [|split]].
  - intros n s l Hwf Hn Hfuel. apply (malloc_step HP); assumption.
  - intros s l x0 Hwf Hx0 Hfuel. apply (free_step HP); assumption.
  - intros o s l Hwf Hok Hfuel.
    destruct (op_step HP fuel o s l Hwf Hok Hfuel) as (s' & l' & Hs & Hwf' & _).
    eauto.
  - intros x s s' h Hst Hl. eapply (stays_size HP); eassumption.
Qed.

(** Payload bytes and header fields do not overlap in a well-formed
    directory: no address of the payload of a listed block lies inside a
    listed header. *)
Lemma wf_payload_header_disjoint s l x y hx a :
  wf s l -> x ∈ l -> y ∈ l -> hdrs s !! x = Some hx ->
  x + header_size <= a < x + header_size + s_size hx ->
  ~ (y <= a < y + header_size).
Proof.
  intros Hwf Hx Hy Hlx Ha Hin.
  pose proof (header_size_pos HP) as Hh.
  destruct (wf_elem HP _ _ _ Hwf Hy) as (hy & Hly & _ & Hys & _).
  apply list_elem_of_split in Hx as (l1 & l2 & ->).
  apply elem_of_app in Hy as [Hy|Hy].
  - apply list_elem_of_split in Hy as (l1a & l1b & ->).
    pose proof (wf_seg _ _ Hwf) as Hseg. rewrite <- app_assoc in Hseg. simpl in Hseg.
    assert (Hxin : x ∈ l1b ++ x :: l2) by (apply elem_of_app; right; left).
    pose proof (dir_seg_after HP _ _ _ _ _ _ _ x Hseg Hly Hxin). lia.
  - apply elem_of_cons in Hy as [->|Hy]; [lia|].
    pose proof (dir_seg_after HP _ _ _ _ _ _ _ y (wf_seg _ _ Hwf) Hlx Hy). lia.
Qed.

End FrameClaim.

Lemma wf_heap3 : @wf demo heap3 [4096; 4184].
Proof.
  constructor; [|reflexivity|unfold modulus; simpl; lia].
  eapply (@dir_seg_cons demo); [reflexivity| | | | |]; try (unfold half; simpl; lia).
  eapply (@dir_seg_cons demo); [reflexivity| | | | |reflexivity];
    unfold half; simpl; lia.
Qed.

Lemma header_fields_frame_witness :
  @platform_ok demo /\
  exists h', hdrs heap3 !! 4096 = Some h' /\ s_size h' = 64.
Proof.
  split; [exact demo_ok|].
  destruct (@header_fields_frame demo demo_ok 4) as (_ & _ & _ & Hseq).
  apply (Hseq 4096 heap1 heap3 (mkHeader 64 false NULL)); [|reflexivity].
  apply (@stays_step demo 4 4096 heap1 [4096] (Allocate 64) heap2 heap3).
  - exact wf_heap1.
  - left.
  - split; [lia|unfold half; simpl; lia].
  - simpl. lia.
  - unfold step. rewrite heap2_run. reflexivity.
  - apply (@stays_step demo 4 4096 heap2 [4096; 4184] (Release 4120) heap3 heap3).
    + exact wf_heap2.
    + left.
    + right. exists 4096. split; [left|reflexivity].
    + simpl. lia.
    + exact heap3_run.
    + apply (@stays_here demo 4 4096 heap3 [4096; 4184]); [exact wf_heap3|left].
Defined.

(** * Further properties of the code *)

(** ** get_free_block on any list *)

Lemma load_Ok a s h : load a s = Ok h -> hdrs s !! a = Some h.
Proof. unfold load. destruct (hdrs s !! a); congruence. Qed.

(** X1.  Whatever the list looks like, also a cyclic or a dangling one, a
    non-null result of [get_free_block] is a stored header that is free and
    at least as large as the request: the search never returns a block in
    use or a block that is too small. *)
Theorem get_free_block_sound fuel n s x :
  get_free_block fuel n s = Ok x -> x <> NULL ->
  exists h, hdrs s !! x = Some h /\ s_is_free h = true /\ n <= s_size h.
Proof.
  unfold get_free_block. generalize (head s) as curr.
  induction fuel as [|fuel IH]; intros curr Hres Hx; [discriminate|].
  simpl in Hres. destruct (curr =? NULL); [congruence|].
  destruct (load curr s) as [h| |] eqn:Hl; try discriminate.
  apply load_Ok in Hl. cbn [mbind res_bind] in Hres.
  destruct (s_is_free h && (n <=? s_size h)) eqn:Hfit.
  - injection Hres as <-. apply andb_true_iff in Hfit as [Hfree Hle].
    apply Z.leb_le in Hle. eauto.
  - eapply IH; eassumption.
Qed.

Lemma get_free_block_sound_witness :
  get_free_block 3 64 heap3 = Ok 4096 /\
  exists h, hdrs heap3 !! 4096 = Some h /\ s_is_free h = true /\ 64 <= s_size h.
Proof.
  split; [reflexivity|].
  apply (get_free_block_sound 3 64 heap3 4096); [reflexivity|discriminate].
Defined.

(** ** Geometry of a well-formed directory *)

Section Geometry.
Context `{P : Platform} (HP : platform_ok).

(** Of two different listed headers, one lies behind the whole block of the
    other. *)
Lemma wf_ordered s l x y hx :
  wf s l -> x ∈ l -> y ∈ l -> x <> y -> hdrs s !! x = Some hx ->
  x + header_size + s_size hx <= y \/ y < x.
Proof.
  intros Hwf Hx Hy Hne Hlx.
  apply list_elem_of_split in Hx as (l1 & l2 & ->).
  apply elem_of_app in Hy as [Hy|Hy].
  - right.
    destruct (dir_seg_split HP _ _ _ _ _ _ (wf_seg _ _ Hwf)) as (_ & _ & _ & _ & _ & _ & _ & Hlt).
    auto.
  - apply elem_of_cons in Hy as [->|Hy]; [congruence|]. left.
    eapply (dir_seg_after HP); [apply (wf_seg _ _ Hwf)|eassumption|assumption].
Qed.

End Geometry.

(** ** What malloc hands out and what free takes back *)

Section HandOut.
Context `{P : Platform} (HP : platform_ok).

(** X3.  A successful [malloc] with a size in range returns the payload of a
    listed block that is now in use and at least as large as the request.
    Before the call that block was either listed as free or not listed at
    all: a block in use is never handed out again.  No other listed header
    has its flag or size changed, no payload byte is written and the break
    does not go down. *)
Theorem malloc_hands_out_unused_block fuel n s l r s' :
  wf s l -> 0 < n -> header_size + n < half -> (length l < fuel)%nat ->
  malloc fuel n s = Ok (r, s') -> r <> NULL ->
  exists y hy l', r = y + header_size /\ wf s' l' /\ y ∈ l' /\
    hdrs s' !! y = Some hy /\ s_is_free hy = false /\ n <= s_size hy /\
    (forall h, y ∈ l -> hdrs s !! y = Some h -> s_is_free h = true) /\
    (forall x h, x ∈ l -> x <> y -> hdrs s !! x = Some h ->
       exists h', hdrs s' !! x = Some h' /\ s_is_free h' = s_is_free h /\
                  s_size h' = s_size h) /\
    mem s' = mem s /\ brk s <= brk s'.
Proof.
  intros Hwf Hn Hsm Hfuel Hm Hr.
  pose proof (header_size_pos HP) as Hh.
  destruct (malloc_cases HP fuel n s l Hwf Hn Hsm Hfuel)
    as [(y & hy & Hfit & Hy & Hin & Hly & Hfy & Hres)|[(_ & _ & Hres)|(_ & Hg & Hres)]];
    rewrite Hres in Hm; injection Hm as <- <-; [| congruence |].
  - destruct (fits_true _ _ _ Hfy) as (hy' & Hly' & Hyf & Hyle).
    assert (hy' = hy) by congruence. subst hy'.
    exists y, (mkHeader (s_size hy) false (s_next hy)), l.
    split; [reflexivity|]. split; [apply wf_reuse; assumption|]. split; [assumption|].
    split; [apply lookup_insert_eq|]. split; [reflexivity|]. split; [assumption|].
    split; [intros h _ Hl; congruence|].
    split; [|split; [reflexivity|simpl; lia]].
    intros x h Hx Hne Hl. exists h. unfold reuse_state. cbn [hdrs].
    rewrite lookup_insert_ne by congruence. auto.
  - exists (brk s), (mkHeader n false NULL), (l ++ [brk s]).
    split; [reflexivity|]. split; [apply (wf_carve HP); assumption|].
    split; [apply elem_of_app; right; left|].
    split; [apply (carve_lookup_new HP _ _ _ _ Hwf)|].
    split; [reflexivity|]. split; [simpl; lia|].
    split.
    { intros h Hin _. exfalso.
      destruct (wf_elem HP _ _ _ Hwf Hin) as (hb & _ & _ & Hs & _ & He). lia. }
    split; [|split; [reflexivity|simpl; lia]].
    intros x h Hx _ Hl.
    destruct (carve_lookup_old HP s l n (header_size + n) x h Hwf Hx Hl)
      as (h' & Hl' & Hs & Hf & _).
    exists h'. auto.
Qed.

(** X4.  [free] of a listed block returns.  Afterwards that block is either
    no longer listed or listed as free; every other block is listed exactly
    if it was listed before and keeps its flag and size; no payload byte is
    written and the break does not go up. *)
Theorem free_releases_only_that_block fuel s l x0 :
  wf s l -> x0 ∈ l -> (length l < fuel)%nat ->
  exists s' l', free fuel (x0 + header_size) s = Ok s' /\ wf s' l' /\
    (x0 ∉ l' \/ exists h', hdrs s' !! x0 = Some h' /\ s_is_free h' = true) /\
    (forall x, x <> x0 -> (x ∈ l' <-> x ∈ l)) /\
    (forall x h, x ∈ l -> x <> x0 -> hdrs s !! x = Some h ->
       exists h', hdrs s' !! x = Some h' /\ s_is_free h' = s_is_free h /\
                  s_size h' = s_size h) /\
    mem s' = mem s /\ brk s' <= brk s.
Proof.
  intros Hwf Hx0 Hfuel.
  pose proof (header_size_pos HP) as Hh.
  destruct (wf_elem HP _ _ _ Hwf Hx0) as (h0 & Hl0 & _ & Hs0 & _).
  destruct (free_cases HP fuel s l x0 h0 Hwf Hx0 Hl0 Hfuel)
    as [(Hend & l0 & -> & Hf)|(Hne & Hf)]; rewrite Hf; eexists.
  - exists l0. split; [reflexivity|].
    split; [apply (wf_shrink HP s l0 x0 h0); assumption|].
    pose proof (dir_seg_NoDup HP _ _ _ _ (wf_seg _ _ Hwf)) as Hnd.
    apply NoDup_app in Hnd as (_ & Hdis & _).
    split; [left; intros Hin; apply (Hdis x0 Hin); left|].
    split.
    { intros x Hne. rewrite elem_of_app, list_elem_of_singleton. tauto. }
    split; [|split; [reflexivity|]].
    + intros x h Hx Hne Hl.
      assert (Hx' : x ∈ l0).
      { apply elem_of_app in Hx as [Hx|Hx]; [assumption|].
        apply list_elem_of_singleton in Hx. congruence. }
      destruct (shrink_lookup HP s l0 x0 (s_size h0) x h Hwf Hx' Hl)
        as (h' & Hl' & Hs & Hfl & _).
      exists h'. auto.
    + unfold shrink_state. cbn [brk].
      destruct (os_grant (brk s) (- (header_size + s_size h0))); lia.
  - exists l. split; [reflexivity|]. split; [apply wf_mark; assumption|].
    split.
    { right. eexists. unfold mark_state. cbn [hdrs]. rewrite lookup_insert_eq.
      split; reflexivity. }
    split; [tauto|]. split; [|split; [reflexivity|simpl; lia]].
    intros x h Hx Hne' Hl. exists h. unfold mark_state. cbn [hdrs].
    rewrite lookup_insert_ne by congruence. auto.
Qed.

(** X5.  Round trip.  When nothing fits and the break grants both moves, a
    [malloc] followed by [free] of its result leaves the directory as it
    found it: same [head], [tail] and break, the same fields in every listed
    header and the same payload bytes. *)
Theorem carve_then_release_restores fuel n s l :
  wf s l -> 0 < n -> header_size + n < half -> (length l + 1 < fuel)%nat ->
  (forall y, y ∈ l -> fits (hdrs s) n y = false) ->
  os_grant (brk s) (header_size + n) = true ->
  os_grant (brk s + (header_size + n)) (- (header_size + n)) = true ->
  exists r s1 s2, malloc fuel n s = Ok (r, s1) /\ r <> NULL /\
    free fuel r s1 = Ok s2 /\ wf s2 l /\
    head s2 = head s /\ tail s2 = tail s /\ brk s2 = brk s /\ mem s2 = mem s /\
    (forall x, x ∈ l -> hdrs s2 !! x = hdrs s !! x).
Proof.
  intros Hwf Hn Hsm Hfuel Hno Hg Hg'.
  pose proof (header_size_pos HP) as Hh. pose proof (wf_brk _ _ Hwf) as Hb.
  destruct (malloc_cases HP fuel n s l Hwf Hn Hsm ltac:(lia))
    as [(y & hy & _ & _ & Hin & _ & Hfy & _)|[(_ & Hg0 & _)|(_ & _ & Hres)]].
  { rewrite (Hno y Hin) in Hfy. discriminate. }
  { congruence. }
  set (s1 := carve_state n (header_size + n) s) in *.
  pose proof (wf_carve HP s l n Hwf Hn Hsm Hg) as Hwf1. fold s1 in Hwf1.
  pose proof (carve_lookup_new HP s l n (header_size + n) Hwf) as Hnew. fold s1 in Hnew.
  assert (Hf : free fuel (brk s + header_size) s1 = Ok (shrink_state l n s1)).
  { apply (free_shrink HP fuel s1 l (brk s) (mkHeader n false NULL)); try assumption.
    - unfold s1. simpl. lia.
    - rewrite length_app. simpl. lia. }
  exists (brk s + header_size), s1, (shrink_state l n s1).
  split; [exact Hres|]. split; [unfold NULL; lia|]. split; [exact Hf|].
  split.
  { apply (wf_shrink HP s1 l (brk s) (mkHeader n false NULL)); try assumption.
    unfold s1. simpl. lia. }
  destruct l as [|z l'].
  - destruct (wf_empty _ Hwf) as [Hhd Htl].
    split; [symmetry; exact Hhd|]. split; [symmetry; exact Htl|].
    split; [unfold shrink_state; cbn [brk s1 carve_state]; rewrite Hg'; lia|].
    split; [reflexivity|]. intros x Hx. inversion Hx.
  - assert (Hne : z :: l' <> []) by discriminate.
    pose proof (wf_tail_elem _ _ Hwf Hne) as Htin.
    destruct (wf_elem HP _ _ _ Hwf Htin) as (ht & Hlt & Ht0 & Hts & _ & Hte).
    assert (Hh0 : head s <> NULL).
    { intros E. apply (dir_seg_head_null _ _ _ _ (wf_seg _ _ Hwf)) in E. congruence. }
    assert (Hnext : s_next ht = NULL).
    { eapply dir_seg_last_next; [apply (wf_seg _ _ Hwf)|exact Hne|].
      rewrite <- (wf_tail _ _ Hwf). exact Hlt. }
    assert (Hh1 : hdrs s1 =
              <[tail s := mkHeader (s_size ht) (s_is_free ht) (brk s)]>
                (<[brk s := mkHeader n false NULL]> (hdrs s))).
    { unfold s1, carve_state, link_tail. cbn [hdrs].
      destruct (Z.eqb_spec (tail s) NULL) as [E|_]; [unfold NULL in E; lia|].
      rewrite lookup_insert_ne by lia. rewrite Hlt. reflexivity. }
    assert (Hlast : List.last (z :: l') NULL = tail s) by (symmetry; apply (wf_tail _ _ Hwf)).
    split.
    { unfold shrink_state. cbn [head s1 carve_state].
      destruct (Z.eqb_spec (head s) NULL); [contradiction|reflexivity]. }
    split; [unfold shrink_state; cbn [tail]; exact Hlast|].
    split; [unfold shrink_state; cbn [brk s1 carve_state]; rewrite Hg'; lia|].
    split; [reflexivity|].
    intros x Hx.
    destruct (wf_elem HP _ _ _ Hwf Hx) as (hx & Hlx & _ & Hxs & _ & Hxe).
    unfold shrink_state. cbn [hdrs]. rewrite Hlast. unfold clear_next.
    rewrite Hh1, lookup_insert_eq. simpl.
    destruct (decide (x = tail s)) as [->|Hxt].
    + rewrite lookup_insert_eq, Hlt. f_equal.
      destruct ht as [sz fl nx]. simpl in *. congruence.
    + rewrite !lookup_insert_ne by (congruence || lia). reflexivity.
Qed.

End HandOut.

Lemma malloc_hands_out_unused_block_witness :
  @wf demo (initial 4096) [] /\
  exists y hy, 4120 = y + @header_size demo /\ hdrs heap1 !! y = Some hy /\
               s_is_free hy = false /\ 64 <= s_size hy.
Proof.
  assert (Hwf : @wf demo (initial 4096) []).
  { apply (@wf_initial demo). unfold modulus. simpl. lia. }
  split; [exact Hwf|].
  destruct (@malloc_hands_out_unused_block demo demo_ok 4 64 (initial 4096) [] 4120 heap1 Hwf)
    as (y & hy & l' & Hr & _ & _ & Hl & Hf & Hs & _).
  - lia.
  - unfold half. simpl. lia.
  - simpl. lia.
  - exact heap1_run.
  - discriminate.
  - exists y, hy. auto.
Defined.

Lemma free_releases_only_that_block_witness :
  @wf demo heap2 [4096; 4184] /\
  exists s' l', @free demo 4 4120 heap2 = Ok s' /\ @wf demo s' l' /\ brk s' <= brk heap2.
Proof.
  split; [exact wf_heap2|].
  destruct (@free_releases_only_that_block demo demo_ok 4 heap2 [4096; 4184] 4096 wf_heap2)
    as (s' & l' & Hf & Hwf & _ & _ & _ & _ & Hb).
  - left.
  - simpl. lia.
  - exists s', l'. auto.
Defined.

Lemma carve_then_release_restores_witness :
  @wf demo (initial 4096) [] /\
  exists r s1 s2, @malloc demo 4 64 (initial 4096) = Ok (r, s1) /\
    @free demo 4 r s1 = Ok s2 /\ brk s2 = 4096 /\ head s2 = NULL /\ tail s2 = NULL.
Proof.
  assert (Hwf : @wf demo (initial 4096) []).
  { apply (@wf_initial demo). unfold modulus. simpl. lia. }
  split; [exact Hwf|].
  destruct (@carve_then_release_restores demo demo_ok 4 64 (initial 4096) [] Hwf)
    as (r & s1 & s2 & Hm & _ & Hf & _ & Hh & Ht & Hb & _).
  - lia.
  - unfold half. simpl. lia.
  - simpl. lia.
  - intros y Hy. inversion Hy.
  - reflexivity.
  - reflexivity.
  - exists r, s1, s2. auto.
Defined.

(** ** Operations as sequences of malloc, free and byte writes *)

Section Decompose.
Context `{P : Platform} (HP : platform_ok).

(** Every admissible operation is at most one [malloc], one write to
    payload bytes and one [free], in this order and on well-formed
    directories. *)
Lemma step_prims fuel o s l s' :
  wf s l -> op_ok l o -> (length l + 1 < fuel)%nat ->
  step fuel o s = Ok s' -> rtc (prim fuel) s s'.
Proof.
  intros Hwf Hok Hfuel Hstep.
  assert (Hmal : forall n r s1, size_ok n -> malloc fuel n s = Ok (r, s1) ->
                                prim fuel s s1).
  { intros n r s1 Hn Hm. apply (prim_malloc fuel s l n r s1); (assumption || lia). }
  destruct o as [n|num nsize|p n|p]; simpl in Hok; unfold step in Hstep.
  - destruct (malloc fuel n s) as [[r s1]| |] eqn:Hm; try discriminate.
    simpl in Hstep. injection Hstep as <-. apply rtc_once. eapply Hmal; eassumption.
  - destruct Hok as (Hnum & Hnsize & Hprod).
    destruct (Z.eq_dec num 0) as [->|Hn0].
    { simpl in Hstep. injection Hstep as <-. apply rtc_refl. }
    destruct (Z.eq_dec nsize 0) as [->|Hs0].
    { unfold calloc in Hstep. rewrite orb_true_r in Hstep. simpl in Hstep.
      injection Hstep as <-. apply rtc_refl. }
    destruct (calloc_cases HP fuel num nsize s ltac:(lia) ltac:(lia)) as [(_ & Hc)|(Hfit & Hc)];
      rewrite Hc in Hstep.
    { simpl in Hstep. injection Hstep as <-. apply rtc_refl. }
    destruct (malloc fuel (num * nsize) s) as [[r s1]| |] eqn:Hm; try discriminate.
    cbn [mbind res_bind fst snd] in Hstep.
    pose proof (Hmal _ _ _ (Hprod Hfit) Hm) as Hp1.
    destruct (r =? NULL); cbn [mbind res_bind snd] in Hstep; injection Hstep as <-.
    + apply rtc_once. exact Hp1.
    + eapply rtc_l; [exact Hp1|]. apply rtc_once. apply prim_mem.
  - destruct Hok as (Hp & Hn).
    assert (Hviamalloc : (p =? NULL) || (n =? 0) = true -> rtc (prim fuel) s s').
    { intros Hg. unfold realloc in Hstep. rewrite Hg in Hstep.
      destruct (malloc fuel n s) as [[r s1]| |] eqn:Hm; try discriminate.
      simpl in Hstep. injection Hstep as <-. apply rtc_once. eapply Hmal; eassumption. }
    destruct Hp as [->|(x0 & Hx0 & ->)]; [apply Hviamalloc; reflexivity|].
    destruct (Z.eq_dec n 0) as [->|Hn0]; [apply Hviamalloc; apply orb_true_r|].
    destruct (wf_elem HP _ _ _ Hwf Hx0) as (h0 & Hl0 & _).
    destruct (wf_pointers HP _ _ _ _ Hwf Hx0 Hl0) as (_ & Hhdr & _ & Hnn).
    destruct (Z_le_gt_dec n (s_size h0)) as [Hle|Hgt].
    { unfold realloc in Hstep.
      destruct (Z.eqb_spec (x0 + header_size) NULL) as [|_]; [contradiction|].
      destruct (Z.eqb_spec n 0) as [|_]; [contradiction|]. simpl in Hstep.
      rewrite Hhdr, (load_Some _ _ _ Hl0) in Hstep. simpl in Hstep.
      destruct (Z.leb_spec n (s_size h0)); [|lia].
      simpl in Hstep. injection Hstep as <-. apply rtc_refl. }
    rewrite (realloc_grow_unfold HP fuel s l x0 h0 n Hwf Hx0 Hl0 ltac:(lia)) in Hstep.
    destruct (malloc_step HP fuel n s l Hwf Hn ltac:(lia))
      as (r & s1 & l1 & Hm & Hwf1 & Hl1 & Hfr).
    rewrite Hm in Hstep. cbn [mbind res_bind fst snd] in Hstep.
    pose proof (Hmal _ _ _ Hn Hm) as Hp1.
    destruct (r =? NULL); cbn [negb mbind res_bind snd] in Hstep.
    { injection Hstep as <-. apply rtc_once. exact Hp1. }
    destruct (Hfr x0 h0 Hx0 Hl0) as (h1 & Hlh1 & _).
    rewrite (load_Some _ _ _ Hlh1) in Hstep. cbn [mbind res_bind] in Hstep.
    set (s2 := memcpy r (x0 + header_size) (s_size h1) s1) in *.
    destruct (free fuel (x0 + header_size) s2) as [s3| |] eqn:Hf; try discriminate.
    cbn [mbind res_bind snd] in Hstep. injection Hstep as <-.
    eapply rtc_l; [exact Hp1|]. eapply rtc_l; [apply (prim_mem fuel s1)|].
    apply rtc_once. apply (prim_free fuel s2 l1 x0 s3).
    + apply wf_set_mem. assumption.
    + destruct Hl1 as [->| ->]; [assumption|apply elem_of_app; left; assumption].
    + destruct Hl1 as [->| ->]; [lia|rewrite length_app; simpl; lia].
    + exact Hf.
  - destruct Hok as [->|(x0 & Hx0 & ->)].
    { simpl in Hstep. injection Hstep as <-. apply rtc_refl. }
    apply rtc_once. apply (prim_free fuel s l x0 s'); (assumption || lia).
Qed.

End Decompose.

(** ** Invariants of the reachable states *)

Section Reachable.
Context `{P : Platform} (HP : platform_ok).

Lemma prim_above fuel c s s' :
  (exists l, wf s l /\ c <= brk s /\ forall x, x ∈ l -> c <= x) ->
  prim fuel s s' ->
  exists l', wf s' l' /\ c <= brk s' /\ forall x, x ∈ l' -> c <= x.
Proof.
  intros (l0 & Hwf0 & Hb & Hlow) Hprim.
  pose proof (header_size_pos HP) as Hh.
  destruct Hprim as [s l n r s' Hwf [Hn0 Hsm] Hfuel Hm|s l x0 s' Hwf Hx0 Hfuel Hf|s m].
  - rewrite (wf_unique _ _ _ Hwf0 Hwf) in Hlow. clear l0 Hwf0.
    destruct (Z.eq_dec n 0) as [->|Hn].
    { simpl in Hm. injection Hm as _ <-. eauto. }
    destruct (malloc_cases HP fuel n s l Hwf ltac:(lia) Hsm Hfuel)
      as [(y & hy & _ & _ & _ & Hly & _ & Hres)|[(_ & _ & Hres)|(_ & Hg & Hres)]];
      rewrite Hres in Hm; injection Hm as _ <-.
    + exists l. split; [apply wf_reuse; assumption|]. auto.
    + exists l. split; [apply wf_with_trace; assumption|]. auto.
    + exists (l ++ [brk s]). split; [apply (wf_carve HP); (assumption || lia)|].
      split; [simpl; lia|]. intros x Hx.
      apply elem_of_app in Hx as [Hx|Hx]; [auto|].
      apply list_elem_of_singleton in Hx. lia.
  - rewrite (wf_unique _ _ _ Hwf0 Hwf) in Hlow. clear l0 Hwf0.
    destruct (wf_elem HP _ _ _ Hwf Hx0) as (h0 & Hl0 & _ & Hs0 & _).
    destruct (free_cases HP fuel s l x0 h0 Hwf Hx0 Hl0 Hfuel)
      as [(Hend & l0 & -> & Hres)|(Hne & Hres)]; rewrite Hres in Hf; injection Hf as <-.
    + exists l0. split; [apply (wf_shrink HP s l0 x0 h0); assumption|].
      split.
      * unfold shrink_state. cbn [brk].
        assert (c <= x0) by (apply Hlow; apply elem_of_app; right; left).
        destruct (os_grant (brk s) (- (header_size + s_size h0))); lia.
      * intros x Hx. apply Hlow. apply elem_of_app. left. assumption.
    + exists l. split; [apply wf_mark; assumption|]. auto.
  - exists l0. split; [apply wf_set_mem; assumption|]. auto.
Qed.

Lemma tight_frame hd hd' c l lim :
  tight hd c l lim ->
  (forall x h, x ∈ l -> hd !! x = Some h ->
     exists h', hd' !! x = Some h' /\ s_size h' = s_size h) ->
  tight hd' c l lim.
Proof.
  revert c. induction l as [|x l IH]; intros c Ht Hsame; simpl in *; [assumption|].
  destruct Ht as (Hxc & h & Hl & Hrest). subst c.
  destruct (Hsame x h ltac:(left) Hl) as (h' & Hl' & Hs).
  split; [reflexivity|]. exists h'. split; [assumption|]. rewrite Hs.
  apply IH; [assumption|]. intros y hy Hy. apply Hsame. right. assumption.
Qed.

Lemma tight_snoc hd c l m h :
  tight hd c l m -> hd !! m = Some h ->
  tight hd c (l ++ [m]) (m + header_size + s_size h).
Proof.
  revert c. induction l as [|x l IH]; intros c Ht Hl; simpl in *.
  - subst c. split; [reflexivity|]. exists h. auto.
  - destruct Ht as (Hxc & hx & Hlx & Hrest). subst c. split; [reflexivity|].
    exists hx. split; [assumption|]. apply IH; assumption.
Qed.

Lemma tight_snoc_inv hd c l x h lim :
  tight hd c (l ++ [x]) lim -> hd !! x = Some h ->
  tight hd c l x /\ lim = x + header_size + s_size h.
Proof.
  revert c. induction l as [|z l IH]; intros c Ht Hl; simpl in *.
  - destruct Ht as (Hxc & h' & Hl' & Hlim). subst c. assert (h' = h) by congruence. subst h'.
    split; [reflexivity|]. symmetry. assumption.
  - destruct Ht as (Hxc & hz & Hlz & Hrest). subst c.
    destruct (IH _ Hrest Hl) as (Ht & Hlim).
    split; [|assumption]. split; [reflexivity|]. exists hz. auto.
Qed.

Lemma tight_footprint hd c l lim : tight hd c l lim -> lim = c + footprint hd l.
Proof.
  revert c. induction l as [|x l IH]; intros c Ht; simpl in *; [lia|].
  destruct Ht as (Hxc & h & Hl & Hrest). subst c. rewrite Hl. rewrite (IH _ Hrest). lia.
Qed.

Lemma prim_tight fuel c s s' :
  (forall b d, 0 < b < modulus -> d < 0 -> c <= b + d -> os_grant b d = true) ->
  (exists l, wf s l /\ tight (hdrs s) c l (brk s) /\ forall x, x ∈ l -> c <= x) ->
  prim fuel s s' ->
  exists l', wf s' l' /\ tight (hdrs s') c l' (brk s') /\ forall x, x ∈ l' -> c <= x.
Proof.
  intros Hgrant (l0 & Hwf0 & Ht & Hlow) Hprim.
  pose proof (header_size_pos HP) as Hh.
  destruct Hprim as [s l n r s' Hwf [Hn0 Hsm] Hfuel Hm|s l x0 s' Hwf Hx0 Hfuel Hf|s m].
  - rewrite (wf_unique _ _ _ Hwf0 Hwf) in Ht, Hlow. clear l0 Hwf0.
    destruct (Z.eq_dec n 0) as [->|Hn].
    { simpl in Hm. injection Hm as _ <-. eauto. }
    destruct (malloc_cases HP fuel n s l Hwf ltac:(lia) Hsm Hfuel)
      as [(y & hy & _ & _ & _ & Hly & _ & Hres)|[(_ & _ & Hres)|(_ & Hg & Hres)]];
      rewrite Hres in Hm; injection Hm as _ <-.
    + exists l. split; [apply wf_reuse; assumption|]. split; [|assumption].
      unfold reuse_state. cbn [hdrs brk]. eapply tight_frame; [exact Ht|].
      intros x h Hx Hl. destruct (decide (x = y)) as [->|Hxy].
      * rewrite lookup_insert_eq. eexists. split; [reflexivity|]. simpl. congruence.
      * rewrite lookup_insert_ne by congruence. eauto.
    + exists l. split; [apply wf_with_trace; assumption|]. auto.
    + exists (l ++ [brk s]). split; [apply (wf_carve HP); (assumption || lia)|].
      split.
      * pose proof (carve_lookup_new HP s l n (header_size + n) Hwf) as Hnew.
        replace (brk (carve_state n (header_size + n) s))
          with (brk s + header_size + s_size (mkHeader n false NULL)) by (simpl; lia).
        apply tight_snoc; [|exact Hnew].
        eapply tight_frame; [exact Ht|]. intros x h Hx Hl.
        destruct (carve_lookup_old HP s l n (header_size + n) x h Hwf Hx Hl)
          as (h' & Hl' & Hs & _). eauto.
      * intros x Hx. apply elem_of_app in Hx as [Hx|Hx]; [auto|].
        apply list_elem_of_singleton in Hx. subst x.
        pose proof (tight_footprint _ _ _ _ Ht) as Hfp.
        destruct l as [|z l']; simpl in Ht; [lia|].
        destruct Ht as (Hz & _).
        destruct (wf_elem HP _ _ z Hwf ltac:(left)) as (hz & _ & _ & Hzs & _ & Hze). lia.
  - rewrite (wf_unique _ _ _ Hwf0 Hwf) in Ht, Hlow. clear l0 Hwf0.
    destruct (wf_elem HP _ _ _ Hwf Hx0) as (h0 & Hl0 & Hx00 & Hs0 & _).
    destruct (free_cases HP fuel s l x0 h0 Hwf Hx0 Hl0 Hfuel)
      as [(Hend & l0 & -> & Hres)|(Hne & Hres)]; rewrite Hres in Hf; injection Hf as <-.
    + exists l0. split; [apply (wf_shrink HP s l0 x0 h0); assumption|].
      destruct (tight_snoc_inv _ _ _ _ _ _ Ht Hl0) as (Ht0 & _).
      assert (Hc : c <= x0) by (apply Hlow; apply elem_of_app; right; left).
      assert (Hg : os_grant (brk s) (- (header_size + s_size h0)) = true).
      { apply Hgrant; [apply (wf_brk _ _ Hwf)|lia|lia]. }
      split.
      * unfold shrink_state at 2. cbn [brk]. rewrite Hg.
        replace (brk s + - (header_size + s_size h0)) with x0 by lia.
        eapply tight_frame; [exact Ht0|]. intros x h Hx Hl.
        destruct (shrink_lookup HP s l0 x0 (s_size h0) x h Hwf Hx Hl)
          as (h' & Hl' & Hs & _). eauto.
      * intros x Hx. apply Hlow. apply elem_of_app. left. assumption.
    + exists l. split; [apply wf_mark; assumption|]. split; [|assumption].
      unfold mark_state. cbn [hdrs brk]. eapply tight_frame; [exact Ht|].
      intros x h Hx Hl. destruct (decide (x = x0)) as [->|Hxy].
      * rewrite lookup_insert_eq. eexists. split; [reflexivity|]. simpl. congruence.
      * rewrite lookup_insert_ne by congruence. eauto.
  - exists l0. split; [apply wf_set_mem; assumption|]. auto.
Qed.

(** X7.  Every state that admissible operations reach from the empty
    directory with the break at [b] is well formed, and the allocator never
    gives back what it did not obtain: the break and every listed header
    stay at or above [b].  The listed blocks, header and payload taken
    together, end at or below the break and are pairwise disjoint. *)
Theorem reachable_region_above fuel b s :
  0 < b < modulus -> reachable fuel b s ->
  exists l, wf s l /\ b <= brk s /\ (forall x, x ∈ l -> b <= x) /\
    (forall x hx, x ∈ l -> hdrs s !! x = Some hx ->
       x + header_size + s_size hx <= brk s) /\
    (forall x y hx hy, x ∈ l -> y ∈ l -> x <> y ->
       hdrs s !! x = Some hx -> hdrs s !! y = Some hy ->
       x + header_size + s_size hx <= y \/ y + header_size + s_size hy <= x).
Proof.
  intros Hb Hreach.
  assert (H : exists l, wf s l /\ b <= brk s /\ forall x, x ∈ l -> b <= x).
  { induction Hreach as [|s l o s' Hreach IH Hwf Hok Hfuel Hstep].
    - exists []. split; [apply wf_initial; assumption|]. split; [simpl; lia|].
      intros x Hx. inversion Hx.
    - pose proof (step_prims HP fuel o s l s' Hwf Hok Hfuel Hstep) as Hrtc.
      clear Hwf Hok Hfuel Hstep Hreach l.
      induction Hrtc as [s|s s1 s2 Hp _ IHrtc]; [exact IH|].
      apply IHrtc. eapply prim_above; eassumption. }
  destruct H as (l & Hwf & Hbrk & Hlow). exists l.
  split; [assumption|]. split; [assumption|]. split; [assumption|]. split.
  - intros x hx Hx Hlx.
    destruct (wf_elem HP _ _ _ Hwf Hx) as (hx' & Hlx' & _ & _ & _ & He).
    assert (hx' = hx) by congruence. subst hx'. exact He.
  - intros x y hx hy Hx Hy Hne Hlx Hly.
    destruct (wf_ordered HP s l x y hx Hwf Hx Hy Hne Hlx) as [H|H]; [left; exact H|].
    destruct (wf_ordered HP s l y x hy Hwf Hy Hx ltac:(congruence) Hly) as [H'|H'];
      [right; exact H'|lia].
Qed.

(** X11.  When the operating system grants every move of the break down to
    an address at or above [b], the managed region of a reachable state
    holds the listed blocks and nothing else: they follow one another without
    a gap from [b] to the break, so the break is [b] plus the bytes of the
    listed blocks, headers included. *)
Theorem reachable_region_tight fuel b s :
  (forall b' d, 0 < b' < modulus -> d < 0 -> b <= b' + d -> os_grant b' d = true) ->
  0 < b < modulus -> reachable fuel b s ->
  exists l, wf s l /\ tight (hdrs s) b l (brk s) /\
            brk s = b + footprint (hdrs s) l.
Proof.
  intros Hgrant Hb Hreach.
  assert (H : exists l, wf s l /\ tight (hdrs s) b l (brk s) /\ forall x, x ∈ l -> b <= x).
  { induction Hreach as [|s l o s' Hreach IH Hwf Hok Hfuel Hstep].
    - exists []. split; [apply wf_initial; assumption|]. split; [reflexivity|].
      intros x Hx. inversion Hx.
    - pose proof (step_prims HP fuel o s l s' Hwf Hok Hfuel Hstep) as Hrtc.
      clear Hwf Hok Hfuel Hstep Hreach l.
      induction Hrtc as [s|s s1 s2 Hp _ IHrtc]; [exact IH|].
      apply IHrtc. eapply prim_tight; eassumption. }
  destruct H as (l & Hwf & Ht & _). exists l. split; [assumption|].
  split; [assumption|]. apply tight_footprint. assumption.
Qed.

End Reachable.

Lemma reachable_heap2 : @reachable demo 4 4096 heap2.
Proof.
  apply (@reach_step demo 4 4096 heap1 [4096] (Allocate 64) heap2).
  - apply (@reach_step demo 4 4096 (initial 4096) [] (Allocate 64) heap1).
    + apply reach_initial.
    + apply (@wf_initial demo). unfold modulus. simpl. lia.
    + split; [lia|unfold half; simpl; lia].
    + simpl. lia.
    + unfold step. rewrite heap1_run. reflexivity.
  - exact wf_heap1.
  - split; [lia|unfold half; simpl; lia].
  - simpl. lia.
  - unfold step. rewrite heap2_run. reflexivity.
Qed.

Lemma reachable_region_above_witness :
  @reachable demo 4 4096 heap2 /\
  exists l, @wf demo heap2 l /\ 4096 <= brk heap2 /\ forall x, x ∈ l -> 4096 <= x.
Proof.
  split; [exact reachable_heap2|].
  destruct (@reachable_region_above demo demo_ok 4 4096 heap2) as (l & Hwf & Hb & Hlow & _).
  - unfold modulus. simpl. lia.
  - exact reachable_heap2.
  - exists l. split; [exact Hwf|]. split; [exact Hb|exact Hlow].
Defined.

Lemma demo_wide_ok : @platform_ok demo_wide.
Proof. apply lp64_ok. lia. Qed.

Lemma reachable_wide_heap2 : @reachable demo_wide 4 4096 heap2.
Proof.
  apply (@reach_step demo_wide 4 4096 heap1 [4096] (Allocate 64) heap2).
  - apply (@reach_step demo_wide 4 4096 (initial 4096) [] (Allocate 64) heap1).
    + apply reach_initial.
    + apply (@wf_initial demo_wide). unfold modulus. simpl. lia.
    + split; [lia|unfold half; simpl; lia].
    + simpl. lia.
    + vm_compute. reflexivity.
  - constructor; [|reflexivity|unfold modulus; simpl; lia].
    eapply (@dir_seg_cons demo_wide); [reflexivity| | | | |reflexivity];
      unfold half; simpl; lia.
  - split; [lia|unfold half; simpl; lia].
  - simpl. lia.
  - vm_compute. reflexivity.
Qed.

Lemma reachable_region_tight_witness :
  @reachable demo_wide 4 4096 heap2 /\
  exists l, @wf demo_wide heap2 l /\
            @tight demo_wide (hdrs heap2) 4096 l (brk heap2) /\
            brk heap2 = 4096 + @footprint demo_wide (hdrs heap2) l.
Proof.
  split; [exact reachable_wide_heap2|].
  apply (@reachable_region_tight demo_wide demo_wide_ok 4 4096 heap2).
  - intros b' d Hb' Hd Hlow. simpl.
    apply andb_true_iff. split; apply Z.leb_le; [lia|].
    unfold modulus in Hb'. simpl in Hb'. lia.
  - unfold modulus. simpl. lia.
  - exact reachable_wide_heap2.
Defined.

(** ** Where calloc writes *)

Section ZeroFill.
Context `{P : Platform} (HP : platform_ok).

(** X8.  A successful [calloc] whose total size is in range returns the
    payload of a listed block in use that holds at least [num * nsize]
    bytes.  These bytes are zero; the rest of the payload of that block and
    the payload bytes of every other listed block are as before the call;
    and every other header that was listed before the call keeps its
    [s_size] and [s_is_free] fields. *)
Theorem calloc_writes_inside_block fuel num nsize s l r s' :
  wf s l -> 0 < num -> 0 < nsize -> header_size + num * nsize < half ->
  (length l < fuel)%nat ->
  calloc fuel num nsize s = Ok (r, s') -> r <> NULL ->
  exists y hy l', r = y + header_size /\ wf s' l' /\ y ∈ l' /\
    hdrs s' !! y = Some hy /\ s_is_free hy = false /\ num * nsize <= s_size hy /\
    (forall i, 0 <= i < num * nsize -> mem s' (r + i) = 0) /\
    (forall i, num * nsize <= i < s_size hy -> mem s' (r + i) = mem s (r + i)) /\
    (forall x hx a, x ∈ l' -> x <> y -> hdrs s' !! x = Some hx ->
       x + header_size <= a < x + header_size + s_size hx -> mem s' a = mem s a) /\
    (forall x h, x ∈ l -> x <> y -> hdrs s !! x = Some h ->
       exists h', hdrs s' !! x = Some h' /\ s_is_free h' = s_is_free h /\
                  s_size h' = s_size h).
Proof.
  intros Hwf Hnum Hnsize Hsm Hfuel Hc Hr.
  pose proof (header_size_pos HP) as Hh.
  pose proof (modulus_half HP) as Hm. pose proof (half_pos HP) as Hhp.
  set (n := num * nsize) in *.
  assert (Hn : 0 < n) by (unfold n; nia).
  assert (Hnum' : 0 < num < modulus) by (unfold n in *; nia).
  assert (Hnsize' : 0 < nsize < modulus) by (unfold n in *; nia).
  destruct (calloc_cases HP fuel num nsize s Hnum' Hnsize') as [(Hov & _)|(_ & Hc')].
  { fold n in Hov. lia. }
  fold n in Hc'. rewrite Hc' in Hc. clear Hc'.
  assert (Hblock : exists y hy l' s1, malloc fuel n s = Ok (y + header_size, s1) /\
            r = y + header_size /\ wf s1 l' /\ y ∈ l' /\ hdrs s1 !! y = Some hy /\
            s_is_free hy = false /\ n <= s_size hy /\ mem s1 = mem s /\
            (forall x h, x ∈ l -> x <> y -> hdrs s !! x = Some h ->
               exists h', hdrs s1 !! x = Some h' /\ s_is_free h' = s_is_free h /\
                          s_size h' = s_size h) /\
            s' = memset r 0 n s1).
  { destruct (malloc_cases HP fuel n s l Hwf Hn Hsm Hfuel)
      as [(y & hy & _ & _ & Hin & Hly & Hfy & Hres)|[(_ & _ & Hres)|(_ & Hg & Hres)]];
      rewrite Hres in Hc; cbn [mbind res_bind fst snd] in Hc.
    - destruct (wf_elem HP _ _ _ Hwf Hin) as (_ & _ & Hy0 & _).
      destruct (Z.eqb_spec (y + header_size) NULL) as [E|_]; [unfold NULL in E; lia|].
      injection Hc as <- <-.
      destruct (fits_true _ _ _ Hfy) as (hy' & Hly' & _ & Hle).
      assert (hy' = hy) by congruence. subst hy'.
      exists y, (mkHeader (s_size hy) false (s_next hy)), l, (reuse_state y hy s).
      split; [exact Hres|]. split; [reflexivity|].
      split; [apply wf_reuse; assumption|]. split; [assumption|].
      split; [apply lookup_insert_eq|]. split; [reflexivity|].
      split; [assumption|]. split; [reflexivity|]. split; [|reflexivity].
      intros x h Hx Hne Hl. exists h. unfold reuse_state. cbn [hdrs].
      rewrite lookup_insert_ne by congruence. auto.
    - simpl in Hc. injection Hc as <- _. congruence.
    - pose proof (wf_brk _ _ Hwf) as Hb.
      destruct (Z.eqb_spec (brk s + header_size) NULL) as [E|_]; [unfold NULL in E; lia|].
      injection Hc as <- <-.
      exists (brk s), (mkHeader n false NULL), (l ++ [brk s]),
             (carve_state n (header_size + n) s).
      split; [exact Hres|]. split; [reflexivity|].
      split; [apply (wf_carve HP); assumption|].
      split; [apply elem_of_app; right; left|].
      split; [apply (carve_lookup_new HP _ _ _ _ Hwf)|]. split; [reflexivity|].
      split; [simpl; lia|]. split; [reflexivity|]. split; [|reflexivity].
      intros x h Hx _ Hl.
      destruct (carve_lookup_old HP s l n (header_size + n) x h Hwf Hx Hl)
        as (h' & Hl' & Hs & Hf & _).
      exists h'. auto. }
  destruct Hblock as (y & hy & l' & s1 & _ & -> & Hwf1 & Hy & Hly & Hfree & Hle & Hmem & Hhd & ->).
  assert (Hout : forall a, ~ (y + header_size <= a < y + header_size + n) ->
                 mem (memset (y + header_size) 0 n s1) a = mem s a).
  { intros a Ha. simpl. rewrite <- Hmem.
    destruct (Z.leb_spec (y + header_size) a); [|reflexivity].
    destruct (Z.ltb_spec a (y + header_size + n)); [lia|reflexivity]. }
  exists y, hy, l'. split; [reflexivity|].
  split; [apply wf_set_mem; assumption|]. split; [assumption|].
  split; [exact Hly|]. split; [assumption|]. split; [assumption|].
  split; [|split; [|split; [|exact Hhd]]].
  - intros i Hi. simpl.
    destruct (Z.leb_spec (y + header_size) (y + header_size + i)); [|lia].
    destruct (Z.ltb_spec (y + header_size + i) (y + header_size + n)); [reflexivity|lia].
  - intros i Hi. apply Hout. lia.
  - intros x hx a Hx Hne Hlx Ha. apply Hout.
    destruct (wf_ordered HP s1 l' x y hx Hwf1 Hx Hy Hne Hlx) as [H|H]; [lia|].
    destruct (wf_ordered HP s1 l' y x hy Hwf1 Hy Hx ltac:(congruence) Hly) as [H'|H']; lia.
Qed.

End ZeroFill.

Lemma calloc_writes_inside_block_witness :
  @wf demo heap1 [4096] /\
  exists s', @calloc demo 4 8 8 heap1 = Ok (4208, s') /\
    (forall i, 0 <= i < 64 -> mem s' (4208 + i) = 0) /\
    (forall h, hdrs heap1 !! 4096 = Some h ->
       exists h', hdrs s' !! 4096 = Some h' /\ s_is_free h' = s_is_free h /\
                  s_size h' = s_size h).
Proof.
  split; [exact wf_heap1|].
  assert (Hrun : exists s', @calloc demo 4 8 8 heap1 = Ok (4208, s')).
  { eexists. vm_compute. reflexivity. }
  destruct Hrun as (s' & Hrun). exists s'. split; [exact Hrun|].
  destruct (@calloc_writes_inside_block demo demo_ok 4 8 8 heap1 [4096] 4208 s' wf_heap1)
    as (y & hy & l' & Hr & _ & _ & _ & _ & _ & Hzero & _ & _ & Hhd).
  - lia.
  - lia.
  - unfold half. simpl. lia.
  - simpl. lia.
  - exact Hrun.
  - discriminate.
  - split; [exact Hzero|]. intros h Hl. apply Hhd; [left| |exact Hl].
    change (@header_size demo) with 24 in Hr. lia.
Defined.

Lemma allocate_carve_in_range_witness :
  @wf demo (initial 4096) [] /\
  exists r s', @malloc demo 4 64 (initial 4096) = Ok (r, s') /\
    trace s' = [Lock; Sbrk 88; Unlock] /\ r = 4120 /\
    hdrs s' !! 4096 = Some (mkHeader 64 false NULL).
Proof.
  assert (Hwf : @wf demo (initial 4096) []).
  { apply (@wf_initial demo). unfold modulus. simpl. lia. }
  split; [exact Hwf|].
  destruct (@allocate_carve_in_range demo demo_ok 4 64 (initial 4096) [] Hwf)
    as (r & s' & Hm & Htr & _ & Hgrant).
  - lia.
  - unfold half. simpl. lia.
  - simpl. lia.
  - intros y Hy. inversion Hy.
  - destruct Hgrant as (Hr & _ & _ & Hl & _); [reflexivity|].
    exists r, s'. split; [exact Hm|]. split; [exact Htr|]. split; [exact Hr|exact Hl].
Defined.

(** ** Payload bytes under malloc, free and realloc *)

Section Payload.
Context `{P : Platform}.

Lemma store_next_mem a v s s' : store_next a v s = Ok s' -> mem s' = mem s.
Proof.
  unfold store_next. destruct (load a s); try discriminate.
  cbn [mbind res_bind]. intros H. injection H as <-. reflexivity.
Qed.

Lemma store_is_free_mem a v s s' : store_is_free a v s = Ok s' -> mem s' = mem s.
Proof.
  unfold store_is_free. destruct (load a s); try discriminate.
  cbn [mbind res_bind]. intros H. injection H as <-. reflexivity.
Qed.

Lemma unlink_from_mem : forall fuel tmp s s',
  unlink_from fuel tmp s = Ok s' -> mem s' = mem s.
Proof.
  induction fuel as [|fuel IH]; intros tmp s s' Hu; [discriminate|].
  simpl in Hu. destruct (tmp =? NULL); [congruence|].
  destruct (load tmp s) as [h| |]; try discriminate.
  cbn [mbind res_bind] in Hu.
  destruct (s_next h =? tail s).
  - destruct (store_next tmp NULL s) as [s0| |] eqn:Hs0; try discriminate.
    apply store_next_mem in Hs0. cbn [mbind res_bind] in Hu.
    destruct (load tmp (set_tail tmp s0)) as [h1| |]; try discriminate.
    cbn [mbind res_bind] in Hu. apply IH in Hu. rewrite Hu. simpl. exact Hs0.
  - cbn [mbind res_bind] in Hu.
    destruct (load tmp s) as [h1| |]; try discriminate.
    cbn [mbind res_bind] in Hu. apply IH in Hu. exact Hu.
Qed.

Lemma sbrk_mem d s : mem (snd (sbrk d s)) = mem s.
Proof.
  unfold sbrk. destruct (d =? 0); [reflexivity|].
  destruct (os_grant (brk s) d); reflexivity.
Qed.

(** [free] never writes payload bytes, whatever the state. *)
Lemma free_mem fuel p s s' : free fuel p s = Ok s' -> mem s' = mem s.
Proof.
  unfold free. destruct (p =? NULL); [congruence|].
  pose proof (sbrk_mem 0 (pthread_mutex_lock s)) as Hsb0.
  destruct (sbrk 0 (pthread_mutex_lock s)) as [pb s0]. simpl in Hsb0.
  destruct (load (wrap (p - header_size)) s0) as [h| |]; try discriminate.
  cbn [mbind res_bind].
  destruct (wrap (p + s_size h) =? pb).
  - intros Hf.
    match type of Hf with
    | (?m ≫= _) = _ => destruct m as [s1| |] eqn:Hs1; try discriminate
    end.
    cbn [mbind res_bind] in Hf.
    assert (Hm1 : mem s1 = mem s0).
    { destruct (head s0 =? tail s0).
      - injection Hs1 as <-. reflexivity.
      - apply unlink_from_mem in Hs1. exact Hs1. }
    destruct (load (wrap (p - header_size)) s1) as [h'| |]; try discriminate.
    cbn [mbind res_bind] in Hf.
    pose proof (sbrk_mem (to_signed (wrap (0 - s_size h' - header_size))) s1) as Hsb.
    destruct (sbrk (to_signed (wrap (0 - s_size h' - header_size))) s1) as [b s2].
    simpl in Hsb. injection Hf as <-. simpl. congruence.
  - intros Hf.
    destruct (store_is_free (wrap (p - header_size)) true s0) as [s1| |] eqn:Hs1;
      try discriminate.
    apply store_is_free_mem in Hs1. cbn [mbind res_bind] in Hf.
    injection Hf as <-. simpl. congruence.
Qed.

(** [malloc] never writes payload bytes, whatever the state. *)
Lemma malloc_mem fuel n s r s' : malloc fuel n s = Ok (r, s') -> mem s' = mem s.
Proof.
  unfold malloc. destruct (n =? 0); [congruence|].
  destruct (get_free_block fuel n (pthread_mutex_lock s)) as [hdr| |]; try discriminate.
  cbn [mbind res_bind]. destruct (negb (hdr =? NULL)).
  - intros Hm.
    destruct (store_is_free hdr false (pthread_mutex_lock s)) as [s1| |] eqn:Hs1;
      try discriminate.
    apply store_is_free_mem in Hs1. cbn [mbind res_bind] in Hm.
    injection Hm as _ <-. simpl. exact Hs1.
  - pose proof (sbrk_mem (to_signed (wrap (header_size + n))) (pthread_mutex_lock s)) as Hsb.
    destruct (sbrk (to_signed (wrap (header_size + n))) (pthread_mutex_lock s)) as [b s1].
    simpl in Hsb. destruct (b =? SBRK_FAILED).
    + intros Hm. injection Hm as _ <-. simpl. exact Hsb.
    + intros Hm.
      match type of Hm with
      | (?m ≫= _) = _ => destruct m as [s2| |] eqn:Hs2; try discriminate
      end.
      cbn [mbind res_bind] in Hm. injection Hm as _ <-. simpl.
      rewrite <- Hsb.
      match type of Hs2 with
      | (if ?c then _ else _) = _ => destruct c
      end.
      * apply store_next_mem in Hs2. rewrite Hs2.
        destruct (head _ =? NULL); reflexivity.
      * injection Hs2 as <-. destruct (head _ =? NULL); reflexivity.
Qed.

End Payload.

Section GrowFrame.
Context `{P : Platform} (HP : platform_ok).

(** X9.  A successful [realloc] of a listed block in use to a larger size in
    range returns the payload of a listed block in use of at least the new
    size, whose first [old size] bytes are those of the old payload; the old
    block is released (unlisted or listed as free); the rest of the payload
    of the returned block and the payload bytes of every other listed block
    are as before the call. *)
Theorem realloc_grow_copies_and_preserves fuel s l x h n r s3 :
  wf s l -> x ∈ l -> hdrs s !! x = Some h -> s_is_free h = false ->
  s_size h < n -> header_size + n < half -> (length l + 1 < fuel)%nat ->
  realloc fuel (x + header_size) n s = Ok (r, s3) -> r <> NULL ->
  exists y h3 l3, r = y + header_size /\ wf s3 l3 /\ y ∈ l3 /\
    hdrs s3 !! y = Some h3 /\ s_is_free h3 = false /\ n <= s_size h3 /\
    (x ∉ l3 \/ exists hx, hdrs s3 !! x = Some hx /\ s_is_free hx = true) /\
    (forall i, 0 <= i < s_size h -> mem s3 (r + i) = mem s (x + header_size + i)) /\
    (forall i, s_size h <= i < s_size h3 -> mem s3 (r + i) = mem s (r + i)) /\
    (forall z hz a, z ∈ l3 -> z <> y -> hdrs s3 !! z = Some hz ->
       z + header_size <= a < z + header_size + s_size hz -> mem s3 a = mem s a).
Proof.
  intros Hwf Hx Hl Hfree Hlt Hsm Hfuel Hre Hr.
  pose proof (header_size_pos HP) as Hh.
  destruct (resize_grow_in_range HP fuel s l x h n Hwf Hx Hl Hfree Hlt Hsm Hfuel)
    as (r' & s1 & Hm & Hnull & Hok).
  destruct (Z.eq_dec r' NULL) as [E|E].
  { destruct (Hnull E) as (Hre' & _). rewrite Hre' in Hre. congruence. }
  destruct (Hok E) as (s3' & l3 & Hre' & Hwf3 & Hf & Hbytes & Hrel & (y & h3 & Hy & Hyin & Hly & Hyf & Hyle)).
  rewrite Hre' in Hre. injection Hre as -> ->.
  assert (Hout : forall a, ~ (r <= a < r + s_size h) -> mem s3 a = mem s a).
  { intros a Ha. rewrite (free_mem _ _ _ _ Hf). simpl.
    rewrite (malloc_mem _ _ _ _ _ Hm).
    destruct (Z.leb_spec r a); [|reflexivity].
    destruct (Z.ltb_spec a (r + s_size h)); [lia|reflexivity]. }
  exists y, h3, l3.
  split; [exact Hy|]. split; [exact Hwf3|]. split; [exact Hyin|].
  split; [exact Hly|]. split; [exact Hyf|]. split; [exact Hyle|].
  split; [exact Hrel|]. split; [exact Hbytes|]. split.
  { intros i Hi. apply Hout. lia. }
  intros z hz a Hz Hne Hlz Ha. apply Hout. subst r.
  destruct (wf_ordered HP s3 l3 z y hz Hwf3 Hz Hyin Hne Hlz) as [H|H]; [lia|].
  destruct (wf_ordered HP s3 l3 y z h3 Hwf3 Hyin Hz ltac:(congruence) Hly) as [H'|H']; lia.
Qed.

End GrowFrame.

Lemma realloc_grow_copies_and_preserves_witness :
  @wf demo heap1 [4096] /\
  exists s3, @realloc demo 4 4120 100 heap1 = Ok (4208, s3) /\
    forall i, 0 <= i < 64 -> mem s3 (4208 + i) = mem heap1 (4120 + i).
Proof.
  split; [exact wf_heap1|].
  assert (Hrun : exists s3, @realloc demo 4 4120 100 heap1 = Ok (4208, s3)).
  { eexists. vm_compute. reflexivity. }
  destruct Hrun as (s3 & Hrun). exists s3. split; [exact Hrun|].
  destruct (@realloc_grow_copies_and_preserves demo demo_ok 4 heap1 [4096] 4096
              (mkHeader 64 false NULL) 100 4208 s3 wf_heap1)
    as (y & h3 & l3 & _ & _ & _ & _ & _ & _ & _ & Hbytes & _).
  - left.
  - reflexivity.
  - reflexivity.
  - simpl. lia.
  - unfold half. simpl. lia.
  - simpl. lia.
  - exact Hrun.
  - discriminate.
  - exact Hbytes.
Defined.
